(** * Chapter-boundary detection of the PDF chapter splitter

    A shallow embedding of [PDFChapterSplitter] (src/pdf_processor.py):
    the bookmark flattener, the heading heuristic, the end-page
    resolver, the fixed-chunk fallback and the orchestrating
    [detect_chapters], followed by the properties the specification
    states about them; then [split_chapters] with its file names and
    page copy, and the upload filter [allowed_file] of src/app.py, with
    the properties the code shows.

    Conventions of the embedding:
    - a Python [int] is a [Z]; the length of a list is a [nat] that is
      injected into [Z] wherever the code computes with it;
    - a font size (a finite Python [float]) is the rational it denotes;
    - a [str] is a [string] of 7-bit ASCII characters;
    - a chapter [dict] is a record whose optional keys are [option]s;
    - a call that may raise returns a [Result]. *)

From Stdlib Require Import ZArith QArith Ascii String List Lia Permutation Sorted.
From stdpp Require Import base list strings pretty gmap.

Local Open Scope string_scope.
Local Open Scope list_scope.
Local Open Scope Z_scope.

(* ================================================================== *)
(** * Exceptions                                                       *)
(* ================================================================== *)

(** The outcome of a Python call: a value, or a raised exception
    carried by its message. *)
Inductive Result (A : Type) : Type :=
| Ok (a : A)
| Raise (msg : string).

Arguments Ok {A} a.
Arguments Raise {A} msg.

Definition rbind {A B : Type} (m : Result A) (k : A → Result B) : Result B :=
  match m with
  | Ok a => k a
  | Raise e => Raise e
  end.

Notation "x ←! m ; k" := (rbind m (fun x => k))
  (at level 100, m at next level, right associativity).

Definition rmap {A B : Type} (f : A → B) (m : Result A) : Result B :=
  match m with
  | Ok a => Ok (f a)
  | Raise e => Raise e
  end.

(** [try: m except Exception: h]. *)
Definition try_except {A : Type} (m : Result A) (h : string → Result A) : Result A :=
  match m with
  | Ok a => Ok a
  | Raise e => h e
  end.

Definition succeeds {A : Type} (m : Result A) : Prop := ∃ a, m = Ok a.

(** [for x in xs: st = body st x], where the body may raise. *)
Fixpoint for_each {S X : Type} (body : S → X → Result S) (xs : list X) (st : S)
  : Result S :=
  match xs with
  | [] => Ok st
  | x :: rest => st' ←! body st x; for_each body rest st'
  end.

(* ================================================================== *)
(** * The chapter dictionary                                           *)
(* ================================================================== *)

(** The keys the detection paths write.  ['end_page'] is absent until
    the resolver (or the fallback) sets it; ['font_size'] is written by
    the heading path only. *)
Record Chapter : Type := mkChapter {
  title : string;
  full_title : string;
  parent : string;
  start_page : Z;
  chapter_num : Z;
  level : Z;
  end_page : option Z;
  font_size : option Q
}.

(** [chapter['end_page'] = e]. *)
Definition set_end_page (e : Z) (c : Chapter) : Chapter :=
  {| title := title c; full_title := full_title c; parent := parent c;
     start_page := start_page c; chapter_num := chapter_num c;
     level := level c; end_page := Some e; font_size := font_size c |}.

(** [chapters[i]], raising [IndexError] out of range. *)
Definition get_item {A : Type} (l : list A) (i : nat) : Result A :=
  match l !! i with
  | Some a => Ok a
  | None => Raise "IndexError: list index out of range"
  end.

(* ================================================================== *)
(** * BoundaryResolver: [_calculate_end_pages]                         *)
(* ================================================================== *)

(** One iteration of the loop of [_calculate_end_pages].  Every
    dictionary of the list is created once by a detection path and
    appended once, so the in-place update of [chapters[i]] is the
    functional update at index [i]; the loop on the store of objects
    follows, and the two are shown to agree on lists without a repeated
    reference. *)
Definition end_page_step (total_pages : Z) (chapters : list Chapter) (i : nat)
  : Result (list Chapter) :=
  if Z.of_nat i <? Z.of_nat (length chapters) - 1 then
    next ←! get_item chapters (i + 1);
    cur ←! get_item chapters i;
    Ok (<[i := set_end_page (start_page next - 1) cur]> chapters)
  else
    cur ←! get_item chapters i;
    Ok (<[i := set_end_page (total_pages - 1) cur]> chapters).

Definition _calculate_end_pages (chapters : list Chapter) (total_pages : Z)
  : Result (list Chapter) :=
  for_each (end_page_step total_pages) (seq 0 (length chapters)) chapters.

(** The same loop on the objects themselves.  A Python list holds
    references; the dictionaries live in a store, here a finite map from
    addresses.  The loop reads [chapters[i + 1]['start_page']] and
    writes the key ['end_page'] of the dictionary [chapters[i]] refers
    to; the list of references is returned as it was. *)
Definition deref (store : gmap nat Chapter) (ref : nat) : Result Chapter :=
  match store !! ref with
  | Some c => Ok c
  | None => Raise "dangling reference"
  end.

Definition end_page_step_store (total_pages : Z) (chapters : list nat)
    (store : gmap nat Chapter) (i : nat) : Result (gmap nat Chapter) :=
  if Z.of_nat i <? Z.of_nat (length chapters) - 1 then
    next_ref ←! get_item chapters (i + 1);
    next ←! deref store next_ref;
    ref ←! get_item chapters i;
    cur ←! deref store ref;
    Ok (<[ref := set_end_page (start_page next - 1) cur]> store)
  else
    ref ←! get_item chapters i;
    cur ←! deref store ref;
    Ok (<[ref := set_end_page (total_pages - 1) cur]> store).

Definition calculate_end_pages_store (chapters : list nat) (total_pages : Z)
    (store : gmap nat Chapter) : Result (gmap nat Chapter) :=
  for_each (end_page_step_store total_pages chapters) (seq 0 (length chapters)) store.

(** The store holds the dictionaries [values] at the addresses
    [chapters]. *)
Definition holds (store : gmap nat Chapter) (chapters : list nat)
    (values : list Chapter) : Prop :=
  Forall2 (fun ref c => store !! ref = Some c) chapters values.

(* ================================================================== *)
(** * Characters and strings                                           *)
(* ================================================================== *)

Definition code (c : ascii) : N := N_of_ascii c.

(** [c.isupper()] for one character. *)
Definition isupper (c : ascii) : bool := ((65 <=? code c) && (code c <=? 90))%N.

(** [\d]. *)
Definition isdigit (c : ascii) : bool := ((48 <=? code c) && (code c <=? 57))%N.

(** [\s], which is also what [str.strip()] removes: tab, line feed,
    vertical tab, form feed, carriage return, the four separators
    0x1c..0x1f and the space. *)
Definition isspace (c : ascii) : bool :=
  (((9 <=? code c) && (code c <=? 13)) || ((28 <=? code c) && (code c <=? 32)))%N.

Definition lower_char (c : ascii) : ascii :=
  if isupper c then ascii_of_N (code c + 32) else c.

Definition chars (s : string) : list ascii := list_ascii_of_string s.

(** [text.lower()]. *)
Definition lower (text : list ascii) : list ascii := map lower_char text.

Fixpoint lstrip (text : list ascii) : list ascii :=
  match text with
  | c :: rest => if isspace c then lstrip rest else text
  | [] => []
  end.

(** [text.strip()] on 7-bit text (on other text Python also strips
    the Unicode spaces). *)
Definition strip (text : string) : string :=
  string_of_list_ascii (rev (lstrip (rev (lstrip (chars text))))).

(* ================================================================== *)
(** * The regular expressions of [_is_chapter_heading]                 *)
(* ================================================================== *)

Inductive regex : Type :=
| Void
| Eps
| Class (p : ascii → bool)
| Cat (r1 r2 : regex)
| Alt (r1 r2 : regex)
| Star (r : regex).

(** [r+] *)
Definition Plus (r : regex) : regex := Cat r (Star r).

(** [r{n,}] *)
Fixpoint AtLeast (n : nat) (r : regex) : regex :=
  match n with
  | O => Star r
  | S n' => Cat r (AtLeast n' r)
  end.

Definition Chr (c : ascii) : regex := Class (Ascii.eqb c).

(** A literal word. *)
Fixpoint Lit (w : list ascii) : regex :=
  match w with
  | [] => Eps
  | c :: rest => Cat (Chr c) (Lit rest)
  end.

Fixpoint nullable (r : regex) : bool :=
  match r with
  | Void => false
  | Eps => true
  | Class _ => false
  | Cat r1 r2 => nullable r1 && nullable r2
  | Alt r1 r2 => nullable r1 || nullable r2
  | Star _ => true
  end.

(** The residual of [r] after reading [c]. *)
Fixpoint deriv (c : ascii) (r : regex) : regex :=
  match r with
  | Void => Void
  | Eps => Void
  | Class p => if p c then Eps else Void
  | Cat r1 r2 =>
      if nullable r1 then Alt (Cat (deriv c r1) r2) (deriv c r2)
      else Cat (deriv c r1) r2
  | Alt r1 r2 => Alt (deriv c r1) (deriv c r2)
  | Star r1 => Cat (deriv c r1) (Star r1)
  end.

(** [^r]: some prefix of the text is a word of [r]. *)
Fixpoint match_prefix (r : regex) (text : list ascii) : bool :=
  nullable r ||
  match text with
  | [] => false
  | c :: rest => match_prefix (deriv c r) rest
  end.

Definition newline : ascii := ascii_of_N 10.

(** [^r$]: the word of [r] ends where the text ends, or just before a
    line feed that ends the text. *)
Fixpoint match_anchored (r : regex) (text : list ascii) : bool :=
  match text with
  | [] => nullable r
  | c :: rest =>
      (nullable r && Ascii.eqb c newline && match rest with [] => true | _ => false end)
      || match_anchored (deriv c r) rest
  end.

(** A pattern of the source: every one starts with [^]; [dollar] tells
    whether it ends with [$]. *)
Record pattern : Type := mkPattern { body : regex; dollar : bool }.

(** [re.search(pattern, text) is not None] (no flags). *)
Definition re_search (pat : pattern) (text : list ascii) : bool :=
  if dollar pat then match_anchored (body pat) text
  else match_prefix (body pat) text.

Definition digit : regex := Class isdigit.
Definition space : regex := Class isspace.
Definition upper_AZ : regex := Class isupper.

(** [r'^chapter\s+\d+'] *)
Definition pat_chapter : pattern :=
  mkPattern (Cat (Lit (chars "chapter")) (Cat (Plus space) (Plus digit))) false.

(** [r'^\d+\.\s+[A-Z]'] *)
Definition pat_numbered : pattern :=
  mkPattern (Cat (Plus digit) (Cat (Chr ".") (Cat (Plus space) upper_AZ))) false.

(** [r'^[A-Z][A-Z\s]{5,}$'] *)
Definition pat_allcaps : pattern :=
  mkPattern (Cat upper_AZ (AtLeast 5 (Class (fun c => isupper c || isspace c)))) true.

(** [r'^Part\s+[IVX\d]+'] *)
Definition pat_part : pattern :=
  mkPattern
    (Cat (Lit (chars "Part"))
       (Cat (Plus space)
          (Plus (Class (fun c => Ascii.eqb c "I" || Ascii.eqb c "V"
                                 || Ascii.eqb c "X" || isdigit c)))))
    false.

(** [r'^Section\s+\d+'] *)
Definition pat_section : pattern :=
  mkPattern (Cat (Lit (chars "Section")) (Cat (Plus space) (Plus digit))) false.

Definition patterns : list pattern :=
  [pat_chapter; pat_numbered; pat_allcaps; pat_part; pat_section].

(** [len(text) < 100 and len(text) > 3 and text[0].isupper()]; the
    conjunction is evaluated left to right, so [text[0]] is read only
    when the text has more than three characters. *)
Definition short_capitalised (text : list ascii) : bool :=
  (Z.of_nat (length text) <? 100) && (Z.of_nat (length text) >? 3)
  && match text with
     | c :: _ => isupper c
     | [] => false
     end.

(** The test on 7-bit text, where a character is a byte and
    [str.lower], [str.isupper], [len] and the classes of [re] are the
    functions above. *)
Definition _is_chapter_heading (text : string) : bool :=
  let text_lower := lower (chars text) in
  if existsb (fun pat => re_search pat text_lower) patterns then true
  else if short_capitalised (chars text) then true
  else false.


(* ================================================================== *)
(** * Font sizes and the heading threshold                             *)
(* ================================================================== *)

(** [sorted(font_sizes, reverse=True)]: a stable sort into descending
    order (elements that compare equal keep their order). *)
Fixpoint insert_desc (x : Q) (l : list Q) : list Q :=
  match l with
  | [] => [x]
  | y :: rest => if Qle_bool y x then x :: y :: rest else y :: insert_desc x rest
  end.

Fixpoint sorted_reverse (l : list Q) : list Q :=
  match l with
  | [] => []
  | x :: rest => insert_desc x (sorted_reverse rest)
  end.

(** Rounding of a non-negative integer to 53 significant bits, to
    nearest, ties to even: the rounding of binary64 on a significand,
    whatever the exponent is. *)
Definition b64_round (p : Z) : Z :=
  let s := Z.log2 p - 52 in
  if s <=? 0 then p
  else
    let q := Z.shiftr p s in
    let r := Z.land p (Z.ones s) in
    let h := Z.shiftl 1 (s - 1) in
    let q' := if (h <? r) || ((r =? h) && Z.odd q) then q + 1 else q in
    Z.shiftl q' s.

(** The binary64 constant [0.1] is [tenth_mantissa / 2^55]. *)
Definition tenth_mantissa : Z := 3602879701896397.

(** [int(n * 0.1)] for a length [n]: [n] is converted to binary64, the
    product is rounded to binary64, and [int] truncates. *)
Definition int_times_tenth (n : Z) : Z :=
  Z.shiftr (b64_round (b64_round n * tenth_mantissa)) 55.

Definition default_threshold : Q := 14 # 1.

Definition _calculate_heading_threshold (font_sizes : list Q) : Q :=
  match font_sizes with
  | [] => default_threshold
  | _ =>
      let sorted_sizes := sorted_reverse font_sizes in
      let percentile_90_idx := int_times_tenth (Z.of_nat (length sorted_sizes)) in
      if percentile_90_idx <? Z.of_nat (length sorted_sizes)
      then nth (Z.to_nat percentile_90_idx) sorted_sizes default_threshold
      else default_threshold
  end.

(* ================================================================== *)
(** * The document as PyMuPDF shows it                                 *)
(* ================================================================== *)

(** A span of [page.get_text("dict")]: its text and its font size. *)
Record Span : Type := mkSpan { span_text : string; span_size : Q }.

(** [line["spans"]]. *)
Definition Line : Type := list Span.

(** A block; [None] when the block has no ["lines"] key (an image). *)
Definition Block : Type := option (list Line).

(** [doc[page_num].get_text("dict")["blocks"]]: the blocks of a page,
    or the exception an unreadable page raises. *)
Definition Page : Type := Result (list Block).

Definition FitzDoc : Type := list Page.

(** The three inner loops of [_analyze_font_sizes] over one page. *)
Definition collect_sizes (font_sizes : list Q) (blocks : list Block) : list Q :=
  fold_left (fun font_sizes block =>
    match block with
    | Some lines =>
        fold_left (fun font_sizes line =>
          fold_left (fun font_sizes span => font_sizes ++ [span_size span])
                    line font_sizes)
          lines font_sizes
    | None => font_sizes
    end) blocks font_sizes.

Definition _analyze_font_sizes (doc : FitzDoc) : Result (list Q) :=
  for_each (fun font_sizes page_num =>
              page ←! get_item doc page_num;
              blocks ←! page;
              Ok (collect_sizes font_sizes blocks))
           (seq 0 (Nat.min 20 (length doc))) [].

(** The dictionary the heading scan appends. *)
Definition heading_chapter (text : string) (page_num : nat) (chapter_num : Z)
    (size : Q) : Chapter :=
  {| title := text; full_title := text; parent := "";
     start_page := Z.of_nat page_num; chapter_num := chapter_num;
     level := 0; end_page := None; font_size := Some size |}.

(** The body of the innermost loop of [_detect_from_headings]; the
    state is [(chapters, chapter_num)]. *)
Definition scan_span (heading_threshold : Q) (page_num : nat)
    (st : list Chapter * Z) (span : Span) : list Chapter * Z :=
  let '(chapters, chapter_num) := st in
  let text := strip (span_text span) in
  let size := span_size span in
  if Qle_bool heading_threshold size && _is_chapter_heading text
  then (chapters ++ [heading_chapter text page_num chapter_num size], chapter_num + 1)
  else st.

Definition scan_blocks (heading_threshold : Q) (page_num : nat)
    (st : list Chapter * Z) (blocks : list Block) : list Chapter * Z :=
  fold_left (fun st block =>
    match block with
    | Some lines =>
        fold_left (fun st line => fold_left (scan_span heading_threshold page_num) line st)
                  lines st
    | None => st
    end) blocks st.

(** The loop over the pages of [_detect_from_headings]. *)
Definition scan_pages (heading_threshold : Q) (doc : FitzDoc)
  : Result (list Chapter * Z) :=
  for_each (fun st page_num =>
              page ←! get_item doc page_num;
              blocks ←! page;
              Ok (scan_blocks heading_threshold page_num st blocks))
           (seq 0 (length doc)) ([], 1).

(* ================================================================== *)
(** * The document as pikepdf shows it                                 *)
(* ================================================================== *)

(** A destination array.  Only its first element is read, and only
    through [pikepdf.Page(page_obj).index]: an element stands for what
    that expression evaluates to, a page index or an exception. *)
Definition Dest : Type := list (Result Z).

(** An outline item: its title, its [destination] ([None] or an
    array), its [action] ([None], a dictionary without ['/D'], or a
    dictionary whose ['/D'] is an array) and its children. *)
#[local] Set Warnings "-register-all".
Inductive OutlineItem : Type :=
| mkItem (item_title : string) (destination : option Dest)
         (action : option (option Dest)) (children : list OutlineItem).

Definition item_title (item : OutlineItem) : string :=
  match item with mkItem t _ _ _ => t end.
Definition destination (item : OutlineItem) : option Dest :=
  match item with mkItem _ d _ _ => d end.
Definition action (item : OutlineItem) : option (option Dest) :=
  match item with mkItem _ _ a _ => a end.
Definition children (item : OutlineItem) : list OutlineItem :=
  match item with mkItem _ _ _ c => c end.

(** What [pikepdf.Pdf.open] gives: the root of the outline (or the
    exception [open_outline] raises) and the number of pages. *)
Record PikePdf : Type := mkPikePdf {
  outline_root : Result (list OutlineItem);
  num_pages : nat
}.

(** The file behind [self.pdf_path], as each of the two libraries
    opens it. *)
Record Document : Type := mkDocument {
  pikepdf_open : Result PikePdf;
  fitz_open : Result FitzDoc
}.

(** The [try] block of [_get_bookmark_page]. *)
Definition bookmark_page_body (outline_item : OutlineItem) : Result (option Z) :=
  match destination outline_item with
  | Some (page_obj :: _) => index ←! page_obj; Ok (Some index)
  | _ =>
      match action outline_item with
      | Some (Some (page_obj :: _)) => index ←! page_obj; Ok (Some index)
      | _ => Ok None
      end
  end.

(** [_get_bookmark_page]: any exception is printed and [None] is
    returned. *)
Definition _get_bookmark_page (outline_item : OutlineItem) : option Z :=
  match bookmark_page_body outline_item with
  | Ok page => page
  | Raise _ => None
  end.

(** [f"{parent_title} → {title}" if parent_title else title] *)
Definition join_titles (parent_title title : string) : string :=
  if String.eqb parent_title "" then title
  else parent_title +:+ " → " +:+ title.

(** The dictionary the bookmark path appends for a leaf. *)
Definition bookmark_chapter (title parent_title : string) (page_num chapter_num level : Z)
  : Chapter :=
  {| title := title; full_title := join_titles parent_title title;
     parent := parent_title; start_page := page_num;
     chapter_num := chapter_num; level := level;
     end_page := None; font_size := None |}.

(** One iteration of the loop of [_extract_nested_bookmarks]; the state
    is [(chapters, chapter_num)].  The recursive call on
    [item.children] starts from an empty list and the current number.
    Nothing in the body raises once [_get_bookmark_page] has absorbed
    the failures of the destination, so the [except] clause of the loop
    is never entered. *)
Fixpoint visit_item (parent_title : string) (level : Z)
    (st : list Chapter * Z) (item : OutlineItem) {struct item} : list Chapter * Z :=
  let '(chapters, chapter_num) := st in
  let page_num := _get_bookmark_page item in
  match item with
  | mkItem title _ _ kids =>
      match kids with
      | _ :: _ =>
          let full_parent := join_titles parent_title title in
          let nested_chapters :=
            fst (fold_left (visit_item full_parent (level + 1)) kids ([], chapter_num)) in
          (chapters ++ nested_chapters,
           chapter_num + Z.of_nat (length nested_chapters))
      | [] =>
          match page_num with
          | Some page =>
              (chapters ++ [bookmark_chapter title parent_title page chapter_num level],
               chapter_num + 1)
          | None => st
          end
      end
  end.

Definition _extract_nested_bookmarks (items : list OutlineItem) (start_num : Z)
    (parent_title : string) (level : Z) : list Chapter :=
  fst (fold_left (visit_item parent_title level) items ([], start_num)).

(** What one item contributes to the list: the loop body started from
    an empty list. *)
Definition item_chapters (parent_title : string) (level : Z) (n : Z)
    (item : OutlineItem) : list Chapter :=
  fst (visit_item parent_title level ([], n) item).

(** The [try] block of [_detect_from_bookmarks]. *)
Definition bookmarks_body (doc : Document) : Result (list Chapter) :=
  pdf ←! pikepdf_open doc;
  root ←! outline_root pdf;
  match root with
  | [] => Ok []
  | _ =>
      let all_chapters := _extract_nested_bookmarks root 1 "" 0 in
      _calculate_end_pages all_chapters (Z.of_nat (num_pages pdf))
  end.

Definition _detect_from_bookmarks (doc : Document) : list Chapter :=
  match bookmarks_body doc with
  | Ok all_chapters => all_chapters
  | Raise _ => []
  end.

(* ================================================================== *)
(** * DefaultChapterizer: [_create_default_chapters]                   *)
(* ================================================================== *)

(** [range(start, stop, step)] for a positive step. *)
Definition py_range (start stop step : Z) : list Z :=
  map (fun k => start + step * Z.of_nat k)
      (seq 0 (Z.to_nat ((stop - start + step - 1) / step))).

Definition pages_per_chapter : Z := 20.

Definition default_chapter (chapters : list Chapter) (total_pages i : Z) : Chapter :=
  let chapter_num := Z.of_nat (length chapters) + 1 in
  {| title := "Section " +:+ pretty chapter_num;
     full_title := "Section " +:+ pretty chapter_num;
     parent := "";
     start_page := i;
     chapter_num := chapter_num;
     level := 0;
     end_page := Some (Z.min (i + pages_per_chapter - 1) (total_pages - 1));
     font_size := None |}.

(** The loop of [_create_default_chapters], once the page count is
    known. *)
Definition default_chunks (total_pages : Z) : list Chapter :=
  fold_left (fun chapters i => chapters ++ [default_chapter chapters total_pages i])
            (py_range 0 total_pages pages_per_chapter) [].

Definition _create_default_chapters (doc : Document) : Result (list Chapter) :=
  pdf ←! pikepdf_open doc;
  let total_pages := Z.of_nat (num_pages pdf) in
  Ok (default_chunks total_pages).

(* ================================================================== *)
(** * HeadingDetector and the orchestration                            *)
(* ================================================================== *)

(** The [try] block of [_detect_from_headings]. *)
Definition headings_body (doc : Document) : Result (list Chapter) :=
  pages ←! fitz_open doc;
  font_sizes ←! _analyze_font_sizes pages;
  let heading_threshold := _calculate_heading_threshold font_sizes in
  st ←! scan_pages heading_threshold pages;
  _calculate_end_pages (fst st) (Z.of_nat (length pages)).

Definition _detect_from_headings (doc : Document) : Result (list Chapter) :=
  try_except (headings_body doc) (fun _ => _create_default_chapters doc).

(** [detect_chapters] on a splitter whose [detection_method] is
    [method]: the returned list (or the exception that escapes) and
    [self.detection_method] afterwards. *)
Definition detect_chapters (doc : Document) (method : option string)
  : Result (list Chapter) * option string :=
  let chapters := _detect_from_bookmarks doc in
  match chapters with
  | _ :: _ => (Ok chapters, Some "bookmarks")
  | [] =>
      match _detect_from_headings doc with
      | Ok chapters => (Ok chapters, Some "headings")
      | Raise e => (Raise e, method)
      end
  end.

(* ================================================================== *)
(** * Reference descriptions used in the statements                    *)
(* ================================================================== *)

(** The resolved list, written by recursion on the list: every
    candidate ends one page before the next starts, the last ends on
    the last page. *)
Fixpoint resolved (chapters : list Chapter) (total_pages : Z) : list Chapter :=
  match chapters with
  | [] => []
  | c :: rest =>
      set_end_page (match rest with
                    | next :: _ => start_page next - 1
                    | [] => total_pages - 1
                    end) c
      :: resolved rest total_pages
  end.

(** [[n; n+1; ...]] of length [k]. *)
Definition run (n : Z) (k : nat) : list Z := map (fun i => n + Z.of_nat i) (seq 0 k).

(** The destination pages of the leaves that resolve, in the order a
    pre-order walk of the outline meets them. *)
Fixpoint leaf_pages_item (item : OutlineItem) : list Z :=
  match item with
  | mkItem _ _ _ kids =>
      match kids with
      | _ :: _ => flat_map leaf_pages_item kids
      | [] =>
          match _get_bookmark_page item with
          | Some page => [page]
          | None => []
          end
      end
  end.

Definition leaf_pages (items : list OutlineItem) : list Z :=
  flat_map leaf_pages_item items.

(** Induction on an outline item with the property available for all
    of its children. *)
Fixpoint OutlineItem_nested_ind (P : OutlineItem → Prop)
    (step : ∀ t d a kids, Forall P kids → P (mkItem t d a kids))
    (item : OutlineItem) {struct item} : P item :=
  match item with
  | mkItem t d a kids =>
      step t d a kids
        ((fix all (l : list OutlineItem) : Forall P l :=
            match l with
            | [] => @List.Forall_nil _ P
            | x :: rest =>
                @List.Forall_cons _ P x rest (OutlineItem_nested_ind P step x) (all rest)
            end) kids)
  end.

(** The spans of a page in reading order: every block that has lines,
    every line, every span. *)
Definition all_spans (blocks : list Block) : list Span :=
  flat_map (fun block =>
              match block with
              | Some lines => concat lines
              | None => []
              end) blocks.

Definition page_spans (page : Page) : list Span :=
  match page with
  | Ok blocks => all_spans blocks
  | Raise _ => []
  end.

(** The font sizes of the spans of the first 20 pages. *)
Definition sample_sizes (doc : FitzDoc) : list Q :=
  flat_map (fun page => map span_size (page_spans page)) (take 20 doc).

(** The test of the innermost loop of [_detect_from_headings]. *)
Definition qualifies (heading_threshold : Q) (span : Span) : bool :=
  Qle_bool heading_threshold (span_size span)
  && _is_chapter_heading (strip (span_text span)).

Definition readable (page : Page) : Prop := ∃ blocks, page = Ok blocks.

(** What the scan maintains while it is on a page not before [bound]:
    the numbers are 1..K, the counter is K+1, the start pages ascend
    and none is beyond [bound]. *)
Definition heading_inv (bound : Z) (st : list Chapter * Z) : Prop :=
  map chapter_num (fst st) = run 1 (length (fst st))
  ∧ snd st = 1 + Z.of_nat (length (fst st))
  ∧ StronglySorted Z.le (map start_page (fst st))
  ∧ Forall (fun c => start_page c <= bound) (fst st).

(** The [k]-th chunk (from 0) of the fallback for [total_pages] pages. *)
Definition nth_chunk (total_pages : Z) (k : nat) : Chapter :=
  {| title := "Section " +:+ pretty (Z.of_nat k + 1);
     full_title := "Section " +:+ pretty (Z.of_nat k + 1);
     parent := "";
     start_page := 20 * Z.of_nat k;
     chapter_num := Z.of_nat k + 1;
     level := 0;
     end_page := Some (Z.min (20 * Z.of_nat k + 19) (total_pages - 1));
     font_size := None |}.

(** The number of chunks: [total_pages / 20], rounded up. *)
Definition chunk_count (total_pages : Z) : nat := Z.to_nat ((total_pages + 19) / 20).

(** A leaf bookmark pointing at a page. *)
Definition leaf_at (title : string) (page : Z) : OutlineItem :=
  mkItem title (Some [Ok page]) None [].

(** A seven-page file that pikepdf opens (it has no outline) and
    PyMuPDF refuses. *)
Definition corrupt7 : Document :=
  mkDocument (Ok (mkPikePdf (Ok []) 7)) (Raise "FileDataError: cannot open broken document").

(** A file neither library can open. *)
Definition unreadable : Document :=
  mkDocument (Raise "PdfError: unable to find trailer dictionary")
             (Raise "FileDataError: cannot open broken document").

(** A ten-page file whose outline lists the appendix on page 5 before
    the introduction on page 0. *)
Definition backwards : Document :=
  mkDocument (Ok (mkPikePdf (Ok [leaf_at "Appendix" 5; leaf_at "Introduction" 0]) 10))
             (Ok []).

(** A one-page file without outline whose only span is body text. *)
Definition plain_page : Document :=
  mkDocument (Ok (mkPikePdf (Ok []) 1))
             (Ok [Ok [Some [[mkSpan "hello world" (10 # 1)]]]]).

(** Descending order on font sizes. *)
Definition desc (a b : Q) : Prop := (b <= a)%Q.

(** Every character, in code order. *)
Definition all_chars : list ascii := map ascii_of_nat (seq 0 256).

(** A sufficient test that every word of [r] contains a character of
    the class [q]; with the empty class, that [r] has no word. *)
Fixpoint needs (q : ascii → bool) (r : regex) : bool :=
  match r with
  | Void => true
  | Eps => false
  | Class p => forallb (fun c => implb (p c) (q c)) all_chars
  | Cat r1 r2 => needs q r1 || needs q r2
  | Alt r1 r2 => needs q r1 && needs q r2
  | Star _ => false
  end.

(** The pages of the scenario of the specification: a subtitle of
    size 18 and nine spans of body text on the first page, the heading
    "Chapter 1" of size 20 on the fourth. *)
Definition scenario_pages : FitzDoc :=
  [ Ok [ Some [ [mkSpan "a short subtitle" (18 # 1)];
                repeat (mkSpan "body text" (10 # 1)) 9 ];
         None ];
    Ok [];
    Ok [];
    Ok [ Some [ [mkSpan "  Chapter 1 " (20 # 1)] ] ] ].

(** The file of that scenario: four pages, no outline. *)
Definition scenario : Document :=
  mkDocument (Ok (mkPikePdf (Ok []) 4)) (Ok scenario_pages).

(** The font sizes sampled from [scenario_pages]. *)
Definition scenario_sizes : list Q :=
  (18 # 1) :: repeat (10 # 1) 9 ++ [20 # 1].

(** The outline of the scenario of the specification: two parts, three
    chapters, fifteen pages. *)
Definition two_parts : list OutlineItem :=
  [ mkItem "Part I" None None [leaf_at "ChapterA" 0; leaf_at "ChapterB" 5];
    mkItem "Part II" None None [leaf_at "ChapterC" 10] ].

Definition book : Document :=
  mkDocument (Ok (mkPikePdf (Ok two_parts) 15)) (Ok []).

(** A leaf whose destination is malformed. *)
Definition broken_leaf : OutlineItem :=
  mkItem "Broken" (Some [Raise "ValueError: not a page"]) None [].

(** The empty class of characters. *)
Definition no_char (c : ascii) : bool := false.

(** One hundred capital letters. *)
Definition hundred_capitals : string := string_of_list_ascii (repeat "A"%char 100).

(** The number of elements of [l] that satisfy [p]. *)
Fixpoint count (p : Q → bool) (l : list Q) : nat :=
  match l with
  | [] => 0%nat
  | x :: rest => ((if p x then 1 else 0) + count p rest)%nat
  end.

Definition two_chapters : list Chapter :=
  [ {| title := "A"; full_title := "A"; parent := ""; start_page := 0;
       chapter_num := 1; level := 0; end_page := None; font_size := None |};
    {| title := "B"; full_title := "B"; parent := ""; start_page := 5;
       chapter_num := 2; level := 0; end_page := None; font_size := None |} ].

(** One dictionary listed twice. *)
Definition aliased_store : gmap nat Chapter :=
  {[ 0%nat := {| title := "A"; full_title := "A"; parent := ""; start_page := 3;
                 chapter_num := 1; level := 0; end_page := None; font_size := None |} ]}.

(** The leaves of a sibling list whose page resolves, with that page,
    in order. *)
Definition resolvable_leaves (items : list OutlineItem) : list (string * Z) :=
  omap (fun item =>
          match _get_bookmark_page item with
          | Some page => Some (item_title item, page)
          | None => None
          end) items.

(** [chapter['chapter_num'] += d]. *)
Definition renumber (d : Z) (c : Chapter) : Chapter :=
  {| title := title c; full_title := full_title c; parent := parent c;
     start_page := start_page c; chapter_num := chapter_num c + d;
     level := level c; end_page := end_page c; font_size := font_size c |}.

(** An outline of three leaves, the second of which is malformed. *)
Definition flat_outline : list OutlineItem :=
  [leaf_at "ChapterA" 0; broken_leaf; leaf_at "ChapterB" 5].

(** The qualifying spans of a document in reading order, each with the
    index of its page. *)
Definition hits (heading_threshold : Q) (doc : FitzDoc) : list (nat * Span) :=
  concat (imap (fun page_num page =>
                  map (pair page_num)
                      (List.filter (qualifies heading_threshold) (page_spans page)))
               doc).

(** The keys of a chapter other than its number and its end page. *)
Definition describe (c : Chapter) : string * string * string * Z * Z * option Q :=
  (title c, full_title c, parent c, start_page c, level c, font_size c).

(** The same keys as the heading scan fills them for a qualifying
    span. *)
Definition describe_hit (h : nat * Span) : string * string * string * Z * Z * option Q :=
  let text := strip (span_text (snd h)) in
  (text, text, "", Z.of_nat (fst h), 0, Some (span_size (snd h))).

(** Two dictionaries in a store, listed once each. *)
Definition two_chapter_store : gmap nat Chapter :=
  list_to_map (zip [4%nat; 7%nat] two_chapters).

(** The whole text is a word of [r]. *)
Definition accepts (r : regex) (text : list ascii) : bool :=
  nullable (fold_left (fun r c => deriv c r) text r).

(** A heading in capitals that is longer than a hundred characters. *)
Definition long_chapter_title : string :=
  "CHAPTER  12" +:+ string_of_list_ascii (repeat " "%char 100) +:+ "THE END".

(* ------------------------------------------------------------------ *)
(** The page copy and the file names of [split_chapters].              *)
(* ------------------------------------------------------------------ *)

(** The character class of the first substitution, by character code:
    less-than, greater-than, colon, double quote, slash, backslash,
    vertical bar, question mark, asterisk. *)
Definition invalid_filename_char (c : ascii) : bool :=
  existsb (N.eqb (code c)) [60; 62; 58; 34; 47; 92; 124; 63; 42]%N.

(** The first [re.sub]: every character of the class is replaced by
    the empty string. *)
Definition remove_invalid_chars (s : list ascii) : list ascii :=
  List.filter (fun c => negb (invalid_filename_char c)) s.

(** [re.sub(r'\s+', ' ', s)]: every maximal run of white space becomes
    one space; [in_run] tells that the previous character was white
    space. *)
Fixpoint collapse_whitespace (in_run : bool) (s : list ascii) : list ascii :=
  match s with
  | [] => []
  | c :: rest =>
      if isspace c then
        if in_run then collapse_whitespace true rest
        else " "%char :: collapse_whitespace true rest
      else c :: collapse_whitespace false rest
  end.

Fixpoint lstrip_chars (p : ascii → bool) (s : list ascii) : list ascii :=
  match s with
  | c :: rest => if p c then lstrip_chars p rest else s
  | [] => []
  end.

(** [s.strip(chars)], [p] telling the characters to strip;
    [s.strip()] is [strip_chars isspace]. *)
Definition strip_chars (p : ascii → bool) (s : list ascii) : list ascii :=
  rev (lstrip_chars p (rev (lstrip_chars p s))).

Definition dot_or_space (c : ascii) : bool := Ascii.eqb c "." || Ascii.eqb c " ".

(** The four cleaning steps applied to [chapter['title']], a 7-bit
    text (so that the cut after 80 characters is a cut after 80
    bytes). *)
Definition clean_title (chapter_title : string) : list ascii :=
  let safe_title := remove_invalid_chars (chars chapter_title) in
  let safe_title := strip_chars isspace (collapse_whitespace false safe_title) in
  let safe_title := take 80 safe_title in
  strip_chars dot_or_space safe_title.

(** [safe_title] once the generic name has replaced an empty one. *)
Definition safe_title (chapter : Chapter) : string :=
  match clean_title (title chapter) with
  | [] => "Chapter_" +:+ pretty (chapter_num chapter)
  | cleaned => string_of_list_ascii cleaned
  end.

(** [f"{n:02d}"]: at least two characters, the sign included, padded
    with a zero. *)
Definition format_02d (n : Z) : string :=
  if (0 <=? n) && (n <? 10) then "0" +:+ pretty n else pretty n.

(** [f"{chapter['chapter_num']:02d} - {safe_title}.pdf"] *)
Definition chapter_filename (chapter : Chapter) : string :=
  format_02d (chapter_num chapter) +:+ " - " +:+ safe_title chapter +:+ ".pdf".

(** [os.path.join(a, b)] on a POSIX system. *)
Definition os_path_join (a b : string) : string :=
  match chars b with
  | "/"%char :: _ => b
  | _ =>
      match rev (chars a) with
      | [] => b
      | "/"%char :: _ => a +:+ b
      | _ => a +:+ "/" +:+ b
      end
  end.

(** [pdf.pages[page_num]]: a page is named by its index; a negative
    index counts from the end, and an index outside the document is an
    [IndexError]. *)
Definition page_at (pdf : PikePdf) (page_num : Z) : Result nat :=
  let n := Z.of_nat (num_pages pdf) in
  let index := if page_num <? 0 then page_num + n else page_num in
  if (0 <=? index) && (index <? n) then Ok (Z.to_nat index)
  else Raise "Accessing nonexistent PDF page number".

(** The inner loop of [split_chapters]: the pages appended to the new
    document. *)
Definition copy_pages (pdf : PikePdf) (start end_ : Z) : Result (list nat) :=
  for_each (fun pages page_num =>
              if page_num <? Z.of_nat (num_pages pdf) then
                page ←! page_at pdf page_num;
                Ok (pages ++ [page])
              else Ok pages)
           (py_range start (end_ + 1) 1) [].

(** [chapter['end_page']], a [KeyError] when the key is missing. *)
Definition get_end_page (chapter : Chapter) : Result Z :=
  match end_page chapter with
  | Some e => Ok e
  | None => Raise "'end_page'"
  end.

(** The pages of the document written for a chapter. *)
Definition chapter_pages (pdf : PikePdf) (chapter : Chapter) : Result (list nat) :=
  end_ ←! get_end_page chapter;
  copy_pages pdf (start_page chapter) end_.

(** An entry of the list [split_chapters] returns. The key ['path'],
    which [os.path.relpath] computes against the working directory of
    the process, is left out. *)
Record OutputFile : Type := mkOutputFile {
  out_filename : string;
  out_title : string;
  out_full_title : string;
  out_parent : string;
  out_pages : string
}.

Definition output_entry (chapter : Chapter) (end_ : Z) : OutputFile :=
  {| out_filename := chapter_filename chapter;
     out_title := title chapter;
     out_full_title := full_title chapter;
     out_parent := parent chapter;
     out_pages := pretty (start_page chapter + 1) +:+ "-" +:+ pretty (end_ + 1) |}.

(** What the operating system does when a document is saved:
    [save files path pages] gives the files on disk afterwards and the
    exception raised, if any. It stands for
    [chapter_pdf.save(output_path)] and the [os.path.relpath] call that
    follows it, the steps of an iteration whose outcome depends on the
    disk: a missing or unwritable directory, a name the system refuses,
    a full disk. *)
Definition Save : Type :=
  gmap string (list nat) → string → list nat → gmap string (list nat) * option string.

(** Saving at [path] succeeds and writes the document there. *)
Definition save_works (save : Save) (path : string) : Prop :=
  ∀ files pages, save files path pages = (<[path := pages]> files, None).

(** A disk that accepts every file. *)
Definition plain_save : Save :=
  fun files path pages => (<[path := pages]> files, None).

(** One iteration of the loop over the chapters. The state is the list
    [output_files] and the files on disk, a map from the path of a
    saved document to its pages; the result is the state the iteration
    leaves and the exception it raises, if any. The reads of the
    chapter and the page copy come first and leave the state as it is
    when they raise; then the document is saved, and the entry is
    appended only if that raised nothing. *)
Definition split_step (pdf : PikePdf) (output_dir : string) (save : Save)
    (st : list OutputFile * gmap string (list nat)) (chapter : Chapter)
  : (list OutputFile * gmap string (list nat)) * option string :=
  let '(output_files, files) := st in
  match (end_ ←! get_end_page chapter;
         pages ←! copy_pages pdf (start_page chapter) end_;
         Ok (end_, pages)) with
  | Raise e => (st, Some e)
  | Ok (end_, pages) =>
      let output_path := os_path_join output_dir (chapter_filename chapter) in
      match save files output_path pages with
      | (files', Some e) => ((output_files, files'), Some e)
      | (files', None) => ((output_files ++ [output_entry chapter end_], files'), None)
      end
  end.

(** A loop whose body may raise after it has changed the state: the
    loop stops there, with the state the body has left. *)
Fixpoint for_each_keep {S X : Type} (body : S → X → S * option string)
    (xs : list X) (st : S) : S * option string :=
  match xs with
  | [] => (st, None)
  | x :: rest =>
      match body st x with
      | (st', None) => for_each_keep body rest st'
      | stopped => stopped
      end
  end.

(** [split_chapters]: the returned list (or the exception, wrapped) and
    the files on disk afterwards. *)
Definition split_chapters (doc : Document) (chapters : list Chapter)
    (output_dir : string) (save : Save) (files : gmap string (list nat))
  : Result (list OutputFile) * gmap string (list nat) :=
  match pikepdf_open doc with
  | Raise e => (Raise ("Failed to split PDF: " +:+ e), files)
  | Ok pdf =>
      match for_each_keep (split_step pdf output_dir save) chapters ([], files) with
      | (st, None) => (Ok (fst st), snd st)
      | (st, Some e) => (Raise ("Failed to split PDF: " +:+ e), snd st)
      end
  end.

(* ------------------------------------------------------------------ *)
(** The upload filter of the web application (src/app.py).             *)
(* ------------------------------------------------------------------ *)

(** The characters before the first dot and, if there is a dot, those
    after it. *)
Fixpoint break_dot (s : list ascii) : list ascii * option (list ascii) :=
  match s with
  | [] => ([], None)
  | c :: rest =>
      if Ascii.eqb c "." then ([], Some rest)
      else let '(before, after) := break_dot rest in (c :: before, after)
  end.

(** [s.rsplit('.', 1)] *)
Definition rsplit_dot (s : list ascii) : list (list ascii) :=
  match break_dot (rev s) with
  | (tail, Some head) => [rev head; rev tail]
  | (_, None) => [s]
  end.

(** ['.' in filename and filename.rsplit('.', 1)[1].lower() in
    ALLOWED_EXTENSIONS], with [ALLOWED_EXTENSIONS = {'pdf'}]. *)
Definition allowed_file (filename : string) : Result bool :=
  if existsb (Ascii.eqb ".") (chars filename) then
    extension ←! get_item (rsplit_dot (chars filename)) 1;
    Ok (bool_decide (lower extension = chars "pdf"))
  else Ok false.

(** [file.endswith('.pdf')], the filter of [download_all]. *)
Definition endswith_pdf (file : string) : bool :=
  bool_decide (take 4 (rev (chars file)) = rev (chars ".pdf")).

(** The characters [f"{n:02d}"] is made of. *)
Definition digit_or_minus (c : ascii) : bool := isdigit c || Ascii.eqb c "-".

(** Every white-space character of the text is a space, and no
    white-space character follows another ([prev] tells that the
    character before the text was white space). *)
Fixpoint spaced (prev : bool) (s : list ascii) : bool :=
  match s with
  | [] => true
  | c :: rest =>
      if isspace c then Ascii.eqb c " " && negb prev && spaced true rest
      else spaced false rest
  end.

(** The pages from the first start to the end of the document. *)
Definition pages_from_first (chapters : list Chapter) (pages : nat) : list nat :=
  match chapters with
  | [] => []
  | c :: _ => seq (Z.to_nat (start_page c)) (pages - Z.to_nat (start_page c))
  end.

(** A fifteen-page file pikepdf opens. *)
Definition fifteen_pages : PikePdf := mkPikePdf (Ok two_parts) 15.

(** The separator [os.path.join] puts after a directory. *)
Definition join_sep (a : string) : string :=
  match rev (chars a) with
  | [] => ""
  | "/"%char :: _ => ""
  | _ => "/"
  end.

(** The path of the file written for a chapter. *)
Definition chapter_path (output_dir : string) (chapter : Chapter) : string :=
  os_path_join output_dir (chapter_filename chapter).

(** The entry of [output_files] for a chapter that has its end page. *)
Definition entry_of (chapter : Chapter) : OutputFile :=
  output_entry chapter (match end_page chapter with Some e => e | None => 0 end).

(** The files on disk after the documents [pagess] have been saved for
    [chapters], in order. *)
Definition write_all (output_dir : string) (files : gmap string (list nat))
    (chapters : list Chapter) (pagess : list (list nat)) : gmap string (list nat) :=
  fold_left (fun fs cp => <[chapter_path output_dir (fst cp) := snd cp]> fs)
            (zip chapters pagess) files.

(** The chapters of [book] as the bookmark path returns them, the
    second one having lost its ['end_page'] key. *)
Definition book_chapters_damaged : list Chapter :=
  match _detect_from_bookmarks book with
  | a :: b :: rest =>
      a :: {| title := title b; full_title := full_title b; parent := parent b;
              start_page := start_page b; chapter_num := chapter_num b;
              level := level b; end_page := None; font_size := font_size b |} :: rest
  | other => other
  end.

(** The text is made of 7-bit characters only: the text on which the
    character functions of this file are those of Python. *)
Definition is_ascii_text (text : string) : bool :=
  forallb (fun c => (code c <? 128)%N) (chars text).

(** Every span of every readable page holds 7-bit text. *)
Definition ascii_spans (pages : FitzDoc) : Prop :=
  Forall (fun page =>
            Forall (fun span => is_ascii_text (span_text span) = true) (page_spans page))
         pages.

(* ================================================================== *)
(** * Loops and exceptions                                             *)
(* ================================================================== *)

(** A loop whose body never raises is a left fold. *)
Lemma for_each_pure {S X : Type} (body : S → X → Result S) (f : S → X → S)
    (xs : list X) (st : S) :
  (∀ st x, x ∈ xs → body st x = Ok (f st x)) →
  for_each body xs st = Ok (fold_left f xs st).
Proof.
  revert st. induction xs as [|x xs IH]; intros st Hb; simpl; [reflexivity|].
  rewrite Hb by left. simpl. apply IH. intros st' y Hy. apply Hb. now right.
Qed.

Lemma get_item_Ok {A : Type} (l : list A) (i : nat) (a : A) :
  get_item l i = Ok a → l !! i = Some a.
Proof. unfold get_item. destruct (l !! i); [now intros [= ->] | discriminate]. Qed.

Lemma get_item_lookup {A : Type} (l : list A) (i : nat) (a : A) :
  l !! i = Some a → get_item l i = Ok a.
Proof. intros H. unfold get_item. now rewrite H. Qed.

(* ================================================================== *)
(** * BoundaryResolver                                                 *)
(* ================================================================== *)

(** The step at index [i + 1] of a list with one more element in front
    is the step at index [i] of the list. *)
Lemma end_page_step_cons (total : Z) (x : Chapter) (l : list Chapter) (i : nat) :
  end_page_step total (x :: l) (S i) = rmap (cons x) (end_page_step total l i).
Proof.
  unfold end_page_step. cbn [length].
  replace (Z.of_nat (S i) <? Z.of_nat (S (length l)) - 1)
    with (Z.of_nat i <? Z.of_nat (length l) - 1)
    by (destruct (Z.ltb_spec (Z.of_nat i) (Z.of_nat (length l) - 1));
        destruct (Z.ltb_spec (Z.of_nat (S i)) (Z.of_nat (S (length l)) - 1)); lia).
  unfold get_item. cbn [lookup list_lookup Nat.add].
  destruct (Z.of_nat i <? Z.of_nat (length l) - 1).
  - change (S i + 1)%nat with (S (i + 1)). cbn [lookup list_lookup].
    destruct (l !! (i + 1)%nat); [|reflexivity]. simpl.
    destruct (l !! i); reflexivity.
  - destruct (l !! i); reflexivity.
Qed.

Lemma for_each_end_page_cons (total : Z) (idxs : list nat) (x : Chapter) (l : list Chapter) :
  for_each (end_page_step total) (map S idxs) (x :: l)
  = rmap (cons x) (for_each (end_page_step total) idxs l).
Proof.
  revert l. induction idxs as [|i idxs IH]; intros l; simpl; [reflexivity|].
  rewrite end_page_step_cons.
  destruct (end_page_step total l i) as [l'|e]; simpl; [apply IH | reflexivity].
Qed.

(** The loop of [_calculate_end_pages] computes [resolved] and never
    raises. *)
Lemma calculate_end_pages_resolved (chapters : list Chapter) (total : Z) :
  _calculate_end_pages chapters total = Ok (resolved chapters total).
Proof.
  unfold _calculate_end_pages.
  induction chapters as [|c rest IH]; [reflexivity|].
  cbn [length seq for_each].
  rewrite <- seq_shift.
  destruct rest as [|next rest'].
  - reflexivity.
  - assert (Hstep : end_page_step total (c :: next :: rest') 0
                    = Ok (set_end_page (start_page next - 1) c :: next :: rest')).
    { unfold end_page_step. cbn [length].
      destruct (Z.ltb_spec (Z.of_nat 0) (Z.of_nat (S (S (length rest'))) - 1)); [|lia].
      reflexivity. }
    rewrite Hstep. cbn [rbind].
    rewrite for_each_end_page_cons, IH. reflexivity.
Qed.

Lemma resolved_length (chapters : list Chapter) (total : Z) :
  length (resolved chapters total) = length chapters.
Proof. induction chapters as [|c rest IH]; simpl; [reflexivity | now rewrite IH]. Qed.

Lemma resolved_lookup (chapters : list Chapter) (total : Z) (i : nat) (c : Chapter) :
  chapters !! i = Some c →
  resolved chapters total !! i
  = Some (set_end_page (match chapters !! S i with
                        | Some next => start_page next - 1
                        | None => total - 1
                        end) c).
Proof.
  revert i. induction chapters as [|x rest IH]; intros i H; [discriminate|].
  destruct i as [|i].
  - injection H as ->. simpl. destruct rest; reflexivity.
  - simpl in H. cbn [resolved]. cbn [lookup list_lookup].
    apply (IH i H).
Qed.

Lemma resolved_start_pages (chapters : list Chapter) (total : Z) :
  map start_page (resolved chapters total) = map start_page chapters.
Proof. induction chapters as [|c rest IH]; simpl; [reflexivity | now rewrite IH]. Qed.

Lemma resolved_chapter_nums (chapters : list Chapter) (total : Z) :
  map chapter_num (resolved chapters total) = map chapter_num chapters.
Proof. induction chapters as [|c rest IH]; simpl; [reflexivity | now rewrite IH]. Qed.

(** C1. For every non-empty candidate list of length K and every page
    count, [_calculate_end_pages] returns (it never raises) a list of
    the same length in which [end_page[i] = start_page[i+1] - 1] for
    every [i < K-1] and [end_page[K-1] = total_pages - 1]; each
    candidate is the input candidate with only ['end_page'] set, and
    nothing about the starts is checked. *)
Theorem calculate_end_pages_spec (chapters : list Chapter) (total_pages : Z) :
  chapters ≠ [] →
  ∃ out,
    _calculate_end_pages chapters total_pages = Ok out
    ∧ length out = length chapters
    ∧ (∀ i, (i + 1 < length chapters)%nat →
         ∃ c next, out !! i = Some c ∧ out !! (i + 1)%nat = Some next
                   ∧ end_page c = Some (start_page next - 1))
    ∧ (∃ c, out !! (length chapters - 1)%nat = Some c
            ∧ end_page c = Some (total_pages - 1))
    ∧ (∀ i c, chapters !! i = Some c →
         ∃ e, out !! i = Some (set_end_page e c)).
Proof.
  intros Hne. exists (resolved chapters total_pages).
  split; [apply calculate_end_pages_resolved|].
  split; [apply resolved_length|].
  split; [|split].
  - intros i Hi.
    destruct (lookup_lt_is_Some_2 chapters i) as [c Hc]; [lia|].
    destruct (lookup_lt_is_Some_2 chapters (i + 1)) as [n Hn]; [lia|].
    rewrite (resolved_lookup _ _ _ _ Hc), (resolved_lookup _ _ _ _ Hn).
    replace (S i) with (i + 1)%nat by lia. rewrite Hn.
    eexists _, _. split; [reflexivity|]. split; [reflexivity|]. reflexivity.
  - destruct chapters as [|c0 rest]; [contradiction|].
    destruct (lookup_lt_is_Some_2 (c0 :: rest) (length (c0 :: rest) - 1)) as [c Hc];
      [simpl; lia|].
    rewrite (resolved_lookup _ _ _ _ Hc).
    rewrite (lookup_ge_None_2 (c0 :: rest) (S (length (c0 :: rest) - 1)))
      by (simpl; lia).
    eexists. split; reflexivity.
  - intros i c Hc. rewrite (resolved_lookup _ _ _ _ Hc). eexists. reflexivity.
Qed.

Lemma calculate_end_pages_spec_witness :
  ∃ out,
    _calculate_end_pages two_chapters 9 = Ok out
    ∧ length out = length two_chapters
    ∧ (∀ i, (i + 1 < length two_chapters)%nat →
         ∃ c next, out !! i = Some c ∧ out !! (i + 1)%nat = Some next
                   ∧ end_page c = Some (start_page next - 1))
    ∧ (∃ c, out !! (length two_chapters - 1)%nat = Some c
            ∧ end_page c = Some (9 - 1))
    ∧ (∀ i c, two_chapters !! i = Some c →
         ∃ e, out !! i = Some (set_end_page e c)).
Proof. apply (calculate_end_pages_spec two_chapters 9). discriminate. Defined.

(** C10. On the empty candidate list [_calculate_end_pages] returns the
    empty list and raises nothing, whatever the page count is. *)
Theorem calculate_end_pages_empty (total_pages : Z) :
  _calculate_end_pages [] total_pages = Ok [].
Proof. reflexivity. Qed.

(* ================================================================== *)
(** * BoundaryResolver on the store of objects                         *)
(* ================================================================== *)

Lemma holds_lookup (store : gmap nat Chapter) (refs : list nat) (values : list Chapter)
    (i : nat) (c : Chapter) :
  holds store refs values →
  values !! i = Some c →
  ∃ ref, refs !! i = Some ref ∧ store !! ref = Some c.
Proof.
  intros Hh Hc. destruct (Forall2_lookup_r _ _ _ _ _ Hh Hc) as (ref & Href & Hs).
  now exists ref.
Qed.

(** Writing through the [i]-th reference of a list without repeated
    references changes the [i]-th dictionary and no other. *)
Lemma holds_insert (store : gmap nat Chapter) (refs : list nat) (values : list Chapter)
    (i ref : nat) (c : Chapter) :
  NoDup refs →
  holds store refs values →
  refs !! i = Some ref →
  holds (<[ref := c]> store) refs (<[i := c]> values).
Proof.
  intros Hnd Hh Href. unfold holds in *.
  apply Forall2_same_length_lookup in Hh as [Hlen Hh].
  apply Forall2_same_length_lookup. split; [now rewrite length_insert|].
  intros j r v Hr Hv.
  destruct (decide (j = i)) as [->|Hne].
  - assert (r = ref) by congruence. subst r.
    rewrite list_lookup_insert_eq in Hv
      by (rewrite <- Hlen; now apply lookup_lt_Some in Href).
    injection Hv as <-. apply lookup_insert_eq.
  - rewrite list_lookup_insert_ne in Hv by congruence.
    rewrite lookup_insert_ne; [now apply (Hh j)|].
    intros <-. apply Hne. now apply (NoDup_lookup refs j i ref).
Qed.

(** One iteration on the store does what the iteration on the values
    does. *)
Lemma end_page_step_store_simulates (total : Z) (refs : list nat)
    (store : gmap nat Chapter) (values values' : list Chapter) (i : nat) :
  NoDup refs →
  holds store refs values →
  end_page_step total values i = Ok values' →
  ∃ store',
    end_page_step_store total refs store i = Ok store'
    ∧ holds store' refs values'
    ∧ (∀ ref, ref ∉ refs → store' !! ref = store !! ref).
Proof.
  intros Hnd Hh. unfold end_page_step, end_page_step_store.
  rewrite (Forall2_length _ _ _ Hh).
  destruct (Z.of_nat i <? Z.of_nat (length values) - 1).
  - destruct (get_item values (i + 1)) as [next|] eqn:Hn; [|discriminate].
    destruct (get_item values i) as [cur|] eqn:Hc; [|discriminate].
    cbn [rbind]. intros [= <-].
    apply get_item_Ok in Hn, Hc.
    destruct (holds_lookup _ _ _ _ _ Hh Hn) as (rn & Hrn & Hsn).
    destruct (holds_lookup _ _ _ _ _ Hh Hc) as (rc & Hrc & Hsc).
    rewrite (get_item_lookup _ _ _ Hrn). cbn [rbind]. unfold deref at 1.
    rewrite Hsn. cbn [rbind].
    rewrite (get_item_lookup _ _ _ Hrc). cbn [rbind]. unfold deref.
    rewrite Hsc. cbn [rbind].
    eexists. split; [reflexivity|]. split; [now apply holds_insert|].
    intros ref Hnot. apply lookup_insert_ne. intros <-. apply Hnot.
    eapply list_elem_of_lookup_2. exact Hrc.
  - destruct (get_item values i) as [cur|] eqn:Hc; [|discriminate].
    cbn [rbind]. intros [= <-].
    apply get_item_Ok in Hc.
    destruct (holds_lookup _ _ _ _ _ Hh Hc) as (rc & Hrc & Hsc).
    rewrite (get_item_lookup _ _ _ Hrc). cbn [rbind]. unfold deref.
    rewrite Hsc. cbn [rbind].
    eexists. split; [reflexivity|]. split; [now apply holds_insert|].
    intros ref Hnot. apply lookup_insert_ne. intros <-. apply Hnot.
    eapply list_elem_of_lookup_2. exact Hrc.
Qed.

Lemma for_each_store_simulates (total : Z) (refs : list nat) (idxs : list nat) :
  NoDup refs →
  ∀ (store : gmap nat Chapter) (values values' : list Chapter),
    holds store refs values →
    for_each (end_page_step total) idxs values = Ok values' →
    ∃ store',
      for_each (end_page_step_store total refs) idxs store = Ok store'
      ∧ holds store' refs values'
      ∧ (∀ ref, ref ∉ refs → store' !! ref = store !! ref).
Proof.
  intros Hnd. induction idxs as [|i idxs IH]; intros store values values' Hh Hrun.
  - cbn in *. injection Hrun as <-. now exists store.
  - cbn [for_each] in *.
    destruct (end_page_step total values i) as [v1|] eqn:Hstep; [|discriminate].
    cbn [rbind] in Hrun.
    destruct (end_page_step_store_simulates _ _ _ _ _ _ Hnd Hh Hstep)
      as (s1 & -> & Hh1 & Hframe1).
    cbn [rbind].
    destruct (IH s1 v1 values' Hh1 Hrun) as (s2 & Hrun2 & Hh2 & Hframe2).
    exists s2. split; [exact Hrun2|]. split; [exact Hh2|].
    intros ref Hnot. now rewrite Hframe2, Hframe1.
Qed.

(** On a list whose references are pairwise distinct, the loop on the
    store never raises, leaves in the listed dictionaries exactly the
    resolved values, and touches nothing else. *)
Lemma calculate_end_pages_store_resolved (refs : list nat) (total : Z)
    (store : gmap nat Chapter) (values : list Chapter) :
  NoDup refs →
  holds store refs values →
  ∃ store',
    calculate_end_pages_store refs total store = Ok store'
    ∧ holds store' refs (resolved values total)
    ∧ (∀ ref, ref ∉ refs → store' !! ref = store !! ref).
Proof.
  intros Hnd Hh. unfold calculate_end_pages_store.
  rewrite (Forall2_length _ _ _ Hh).
  apply (for_each_store_simulates total refs _ Hnd store values); [exact Hh|].
  apply calculate_end_pages_resolved.
Qed.

(** A list that names one dictionary twice is outside that case: the
    second write replaces the first. No detection path builds such a
    list. *)
Example aliased_list_overwrites :
  calculate_end_pages_store [0%nat; 0%nat] 10 aliased_store
  = Ok (set_end_page 9 <$> aliased_store).
Proof. vm_compute. reflexivity. Qed.

(* ================================================================== *)
(** * BookmarkFlattener                                                *)
(* ================================================================== *)

Lemma run_app (n : Z) (a b : nat) :
  run n (a + b) = run n a ++ run (n + Z.of_nat a) b.
Proof.
  unfold run. rewrite seq_app, map_app. f_equal.
  simpl. rewrite <- (Nat.add_0_r a) at 1.
  generalize 0%nat as s. induction b as [|b IH]; intros s; simpl; [reflexivity|].
  f_equal; [lia|]. rewrite <- Nat.add_succ_r. apply IH.
Qed.

Lemma run_from_one (k : nat) : run 1 k = map Z.of_nat (seq 1 k).
Proof.
  unfold run. rewrite <- seq_shift, map_map. apply map_ext. intros i. lia.
Qed.

(** The accumulated list is only ever extended, and the counter
    advances by the number of chapters appended. *)
Lemma visit_item_acc (p : string) (l : Z) (acc : list Chapter) (n : Z)
    (item : OutlineItem) :
  visit_item p l (acc, n) item
  = (acc ++ item_chapters p l n item,
     n + Z.of_nat (length (item_chapters p l n item))).
Proof.
  unfold item_chapters.
  destruct item as [t d a [|k kids]].
  - cbn [visit_item]. destruct (_get_bookmark_page _); cbn [fst length app].
    + reflexivity.
    + rewrite app_nil_r. f_equal. lia.
  - cbn [visit_item fst]. reflexivity.
Qed.

Lemma fold_visit_items (p : string) (l : Z) (items : list OutlineItem)
    (acc : list Chapter) (n : Z) :
  fold_left (visit_item p l) items (acc, n)
  = (acc ++ _extract_nested_bookmarks items n p l,
     n + Z.of_nat (length (_extract_nested_bookmarks items n p l))).
Proof.
  unfold _extract_nested_bookmarks.
  revert acc n. induction items as [|item items IH]; intros acc n.
  - simpl. rewrite app_nil_r. f_equal. lia.
  - cbn [fold_left]. rewrite visit_item_acc, IH.
    rewrite (visit_item_acc p l [] n item).
    rewrite (IH ([] ++ _) _). cbn [fst app].
    rewrite app_assoc, length_app. f_equal. lia.
Qed.

Lemma extract_nil (n : Z) (p : string) (l : Z) :
  _extract_nested_bookmarks [] n p l = [].
Proof. reflexivity. Qed.

Lemma extract_cons (item : OutlineItem) (items : list OutlineItem) (n : Z)
    (p : string) (l : Z) :
  _extract_nested_bookmarks (item :: items) n p l
  = item_chapters p l n item
    ++ _extract_nested_bookmarks items
         (n + Z.of_nat (length (item_chapters p l n item))) p l.
Proof.
  unfold _extract_nested_bookmarks at 1. cbn [fold_left].
  rewrite visit_item_acc, fold_visit_items. reflexivity.
Qed.

Lemma extract_app (xs ys : list OutlineItem) (n : Z) (p : string) (l : Z) :
  _extract_nested_bookmarks (xs ++ ys) n p l
  = _extract_nested_bookmarks xs n p l
    ++ _extract_nested_bookmarks ys
         (n + Z.of_nat (length (_extract_nested_bookmarks xs n p l))) p l.
Proof.
  revert n. induction xs as [|x xs IH]; intros n.
  - cbn [app]. rewrite extract_nil. cbn [app length]. f_equal. lia.
  - cbn [app]. rewrite !extract_cons, IH, <- app_assoc, length_app.
    do 3 f_equal. lia.
Qed.

(** A leaf gives one chapter when its page resolves, none otherwise. *)
Lemma item_chapters_leaf (p : string) (l n : Z) (t : string) (d : option Dest)
    (a : option (option Dest)) :
  item_chapters p l n (mkItem t d a [])
  = match _get_bookmark_page (mkItem t d a []) with
    | Some page => [bookmark_chapter t p page n l]
    | None => []
    end.
Proof.
  unfold item_chapters. cbn [visit_item].
  destruct (_get_bookmark_page _); reflexivity.
Qed.

(** A container gives what its children give, under its own title and
    one level deeper; its own destination plays no part. *)
Lemma item_chapters_container (p : string) (l n : Z) (t : string) (d : option Dest)
    (a : option (option Dest)) (k : OutlineItem) (kids : list OutlineItem) :
  item_chapters p l n (mkItem t d a (k :: kids))
  = _extract_nested_bookmarks (k :: kids) n (join_titles p t) (l + 1).
Proof. reflexivity. Qed.

(** The numbers handed out are consecutive from the starting number. *)
Lemma extract_chapter_nums (items : list OutlineItem) :
  ∀ n p l,
    map chapter_num (_extract_nested_bookmarks items n p l)
    = run n (length (_extract_nested_bookmarks items n p l)).
Proof.
  assert (Hitem : ∀ item n p l,
            map chapter_num (item_chapters p l n item)
            = run n (length (item_chapters p l n item))).
  { intros item. induction item as [t d a kids IHkids] using OutlineItem_nested_ind.
    intros n p l. destruct kids as [|k kids].
    - rewrite item_chapters_leaf. destruct (_get_bookmark_page _); [|reflexivity].
      cbn. f_equal. lia.
    - rewrite item_chapters_container.
      generalize (join_titles p t) (l + 1). clear p l. revert n.
      generalize dependent (k :: kids). clear k kids.
      intros kids IHkids. induction IHkids as [|x xs Hx _ IHxs]; intros n p l.
      + reflexivity.
      + rewrite extract_cons, map_app, length_app, run_app, Hx, IHxs. reflexivity. }
  induction items as [|x xs IH]; intros n p l; [reflexivity|].
  rewrite extract_cons, map_app, length_app, run_app, Hitem, IH. reflexivity.
Qed.

(** The start pages are the pages of the resolvable leaves, in outline
    order. *)
Lemma extract_start_pages (items : list OutlineItem) :
  ∀ n p l,
    map start_page (_extract_nested_bookmarks items n p l) = leaf_pages items.
Proof.
  assert (Hitem : ∀ item n p l,
            map start_page (item_chapters p l n item) = leaf_pages_item item).
  { intros item. induction item as [t d a kids IHkids] using OutlineItem_nested_ind.
    intros n p l. destruct kids as [|k kids].
    - rewrite item_chapters_leaf. cbn [leaf_pages_item].
      destruct (_get_bookmark_page _); reflexivity.
    - rewrite item_chapters_container.
      change (leaf_pages_item (mkItem t d a (k :: kids)))
        with (flat_map leaf_pages_item (k :: kids)).
      generalize (join_titles p t) (l + 1). clear p l. revert n.
      generalize dependent (k :: kids). clear k kids.
      intros kids IHkids. induction IHkids as [|x xs Hx _ IHxs]; intros n p l.
      + reflexivity.
      + rewrite extract_cons, map_app, Hx, IHxs. reflexivity. }
  unfold leaf_pages.
  induction items as [|x xs IH]; intros n p l; [reflexivity|].
  rewrite extract_cons, map_app, Hitem, IH. reflexivity.
Qed.

(** A leaf whose page does not resolve leaves no trace among its
    siblings: the list and the numbers are those of the outline without
    it. *)
Lemma extract_skips_unresolved (xs ys : list OutlineItem) (leaf : OutlineItem)
    (n : Z) (p : string) (l : Z) :
  children leaf = [] →
  _get_bookmark_page leaf = None →
  _extract_nested_bookmarks (xs ++ leaf :: ys) n p l
  = _extract_nested_bookmarks (xs ++ ys) n p l.
Proof.
  intros Hkids Hpage. destruct leaf as [t d a kids]. simpl in Hkids. subst kids.
  rewrite !extract_app, extract_cons, item_chapters_leaf, Hpage.
  cbn [app length]. do 2 f_equal. lia.
Qed.

(* ================================================================== *)
(** * HeadingDetector: the scan                                        *)
(* ================================================================== *)

(** Invariant rule for a loop that may raise: if the loop ends
    normally, what held before it and is kept by every iteration that
    ends normally holds after it. *)
Lemma for_each_invariant {S X : Type} (I : nat → S → Prop) (body : S → X → Result S)
    (xs : list X) (st st' : S) :
  I 0%nat st →
  (∀ i x s s', xs !! i = Some x → I i s → body s x = Ok s' → I (Datatypes.S i) s') →
  for_each body xs st = Ok st' →
  I (length xs) st'.
Proof.
  revert I st. induction xs as [|x xs IH]; intros I st H0 Hstep Hrun.
  - simpl in Hrun. now injection Hrun as <-.
  - simpl in Hrun. destruct (body st x) as [s1|e] eqn:Hb; [|discriminate].
    simpl in Hrun.
    apply (IH (fun i => I (Datatypes.S i)) s1).
    + apply (Hstep 0%nat x st s1); [reflexivity | assumption | assumption].
    + intros i y s s' Hy HI Hbody. apply (Hstep (Datatypes.S i) y s s'); assumption.
    + assumption.
Qed.

(** A loop none of whose iterations raises ends normally. *)
Lemma for_each_succeeds {S X : Type} (body : S → X → Result S) (xs : list X) (st : S) :
  (∀ s x, x ∈ xs → succeeds (body s x)) →
  succeeds (for_each body xs st).
Proof.
  revert st. induction xs as [|x xs IH]; intros st Hb.
  - now exists st.
  - simpl. destruct (Hb st x) as [s1 ->]; [left|]. simpl.
    apply IH. intros s y Hy. apply Hb. now right.
Qed.

Lemma fold_left_concat {S X : Type} (f : S → X → S) (ls : list (list X)) (st : S) :
  fold_left (fun st l => fold_left f l st) ls st = fold_left f (concat ls) st.
Proof.
  revert st. induction ls as [|l ls IH]; intros st; simpl; [reflexivity|].
  now rewrite fold_left_app, IH.
Qed.

(** The three nested loops over a page visit its spans in reading
    order. *)
Lemma scan_blocks_flat (thr : Q) (page_num : nat) (blocks : list Block)
    (st : list Chapter * Z) :
  scan_blocks thr page_num st blocks
  = fold_left (scan_span thr page_num) (all_spans blocks) st.
Proof.
  unfold scan_blocks, all_spans.
  revert st. induction blocks as [|b blocks IH]; intros st; [reflexivity|].
  cbn [fold_left flat_map]. rewrite fold_left_app, IH.
  destruct b as [lines|]; [|reflexivity].
  now rewrite fold_left_concat.
Qed.

Lemma collect_sizes_flat (blocks : list Block) (font_sizes : list Q) :
  collect_sizes font_sizes blocks = font_sizes ++ map span_size (all_spans blocks).
Proof.
  assert (Hspans : ∀ (spans : list Span) (acc : list Q),
            fold_left (fun acc span => acc ++ [span_size span]) spans acc
            = acc ++ map span_size spans).
  { induction spans as [|s spans IH]; intros acc; simpl.
    - now rewrite app_nil_r.
    - rewrite IH, <- app_assoc. reflexivity. }
  unfold collect_sizes, all_spans.
  revert font_sizes. induction blocks as [|b blocks IH]; intros acc.
  - simpl. now rewrite app_nil_r.
  - cbn [fold_left flat_map]. rewrite IH, map_app, app_assoc. f_equal.
    destruct b as [lines|]; [|now rewrite app_nil_r].
    rewrite (fold_left_concat (fun acc span => acc ++ [span_size span])).
    apply Hspans.
Qed.

Lemma scan_span_qualifies (thr : Q) (page_num : nat) (st : list Chapter * Z) (span : Span) :
  scan_span thr page_num st span
  = if qualifies thr span
    then (fst st ++ [heading_chapter (strip (span_text span)) page_num (snd st)
                       (span_size span)],
          snd st + 1)
    else st.
Proof. destruct st as [chapters n]. reflexivity. Qed.

Lemma heading_inv_weaken (b b' : Z) (st : list Chapter * Z) :
  b <= b' → heading_inv b st → heading_inv b' st.
Proof.
  intros Hle (Hnum & Hcnt & Hsorted & Hbound).
  repeat split; try assumption.
  eapply Forall_impl; [exact Hbound|]. cbn. intros c Hc. lia.
Qed.

Lemma StronglySorted_snoc (l : list Z) (x : Z) :
  StronglySorted Z.le l → Forall (fun y => y <= x) l → StronglySorted Z.le (l ++ [x]).
Proof.
  induction 1 as [|a l Hs IH Ha]; intros Hx.
  - repeat constructor.
  - inversion Hx as [|? ? Hax Hlx]; subst. cbn [app]. constructor.
    + now apply IH.
    + apply Forall_app. split; [assumption|]. now constructor.
Qed.

Lemma scan_span_inv (thr : Q) (page_num : nat) (st : list Chapter * Z) (span : Span) :
  heading_inv (Z.of_nat page_num) st →
  heading_inv (Z.of_nat page_num) (scan_span thr page_num st span).
Proof.
  intros (Hnum & Hcnt & Hsorted & Hbound).
  rewrite scan_span_qualifies. destruct (qualifies thr span); [|now repeat split].
  unfold heading_inv. cbn [fst snd].
  rewrite !map_app, !length_app. cbn [map length heading_chapter start_page chapter_num].
  repeat split.
  - rewrite run_app, Hnum, Hcnt. f_equal. cbn. f_equal. lia.
  - rewrite Hcnt. lia.
  - apply StronglySorted_snoc; [assumption|].
    apply Forall_map. exact Hbound.
  - apply Forall_app. split; [assumption|]. constructor; [cbn; lia | constructor].
Qed.

Lemma scan_blocks_inv (thr : Q) (page_num : nat) (blocks : list Block)
    (st : list Chapter * Z) :
  heading_inv (Z.of_nat page_num) st →
  heading_inv (Z.of_nat page_num) (scan_blocks thr page_num st blocks).
Proof.
  rewrite scan_blocks_flat. generalize (all_spans blocks) as spans.
  intros spans. revert st. induction spans as [|s spans IH]; intros st H; [exact H|].
  cbn [fold_left]. apply IH. now apply scan_span_inv.
Qed.

(** When the scan of the pages ends normally its state satisfies the
    invariant. *)
Lemma scan_pages_inv (thr : Q) (doc : FitzDoc) (st : list Chapter * Z) :
  scan_pages thr doc = Ok st → heading_inv (Z.of_nat (length doc)) st.
Proof.
  unfold scan_pages. intros Hrun.
  apply (for_each_invariant (fun i s => heading_inv (Z.of_nat i) s) _ _ _ _) in Hrun.
  - now rewrite length_seq in Hrun.
  - repeat split; constructor.
  - intros i x s s' Hx HI Hbody.
    apply lookup_seq in Hx as [-> _]. cbn [Nat.add] in Hbody.
    destruct (get_item doc i) as [page|]; [|discriminate]. cbn [rbind] in Hbody.
    destruct page as [blocks|]; [|discriminate]. cbn [rbind] in Hbody.
    injection Hbody as <-.
    apply (heading_inv_weaken (Z.of_nat i)); [lia|].
    now apply scan_blocks_inv.
Qed.

(** A span that does not qualify leaves the state as it is. *)
Lemma scan_blocks_none_qualifies (thr : Q) (page_num : nat) (blocks : list Block)
    (st : list Chapter * Z) :
  (∀ span, span ∈ all_spans blocks → qualifies thr span = false) →
  scan_blocks thr page_num st blocks = st.
Proof.
  rewrite scan_blocks_flat. generalize (all_spans blocks) as spans.
  induction spans as [|s spans IH]; intros H; [reflexivity|].
  cbn [fold_left]. rewrite scan_span_qualifies, (H s) by left.
  apply IH. intros span Hs. apply H. now right.
Qed.

(** The sample is made of the sizes of the first 20 pages. *)
Lemma analyze_font_sizes_sample (doc : FitzDoc) (sizes : list Q) :
  _analyze_font_sizes doc = Ok sizes → sizes = sample_sizes doc.
Proof.
  unfold _analyze_font_sizes. intros Hrun.
  apply (for_each_invariant
           (fun i s => s = flat_map (fun page => map span_size (page_spans page))
                                    (take i doc)) _ _ _ _) in Hrun.
  - rewrite length_seq in Hrun. unfold sample_sizes. rewrite Hrun.
    destruct (Nat.le_ge_cases 20 (length doc)) as [H|H].
    + now rewrite Nat.min_l.
    + rewrite Nat.min_r by assumption. now rewrite !take_ge by lia.
  - reflexivity.
  - intros i x s s' Hx HI Hbody.
    apply lookup_seq in Hx as [-> _]. cbn [Nat.add] in Hbody.
    destruct (get_item doc i) as [page|] eqn:Hpage; [|discriminate].
    apply get_item_Ok in Hpage. cbn [rbind] in Hbody.
    destruct page as [blocks|]; [|discriminate].
    cbn [rbind] in Hbody. injection Hbody as <-.
    rewrite (take_S_r _ _ _ Hpage), List.flat_map_app, collect_sizes_flat, HI.
    cbn [flat_map page_spans]. now rewrite app_nil_r.
Qed.

Lemma analyze_font_sizes_succeeds (doc : FitzDoc) :
  Forall readable doc → _analyze_font_sizes doc = Ok (sample_sizes doc).
Proof.
  intros Hread.
  destruct (for_each_succeeds
              (fun font_sizes page_num =>
                 page ←! get_item doc page_num;
                 blocks ←! page;
                 Ok (collect_sizes font_sizes blocks))
              (seq 0 (Nat.min 20 (length doc))) []) as [sizes Hs].
  - intros s i Hi. apply elem_of_seq in Hi.
    destruct (lookup_lt_is_Some_2 doc i) as [page Hpage]; [lia|].
    rewrite (get_item_lookup _ _ _ Hpage). cbn [rbind].
    destruct (Forall_lookup_1 _ _ _ _ Hread Hpage) as [blocks ->].
    now eexists.
  - unfold _analyze_font_sizes. rewrite Hs. f_equal.
    now apply analyze_font_sizes_sample.
Qed.

(** A scan of readable pages on which no span qualifies ends with the
    empty list. *)
Lemma scan_pages_none_qualifies (thr : Q) (doc : FitzDoc) :
  Forall readable doc →
  (∀ page span, page ∈ doc → span ∈ page_spans page → qualifies thr span = false) →
  scan_pages thr doc = Ok ([], 1).
Proof.
  intros Hread Hnone. unfold scan_pages.
  rewrite (for_each_pure _ (fun st _ => st)).
  - f_equal. generalize (seq 0 (length doc)). intros l.
    generalize ([] : list Chapter, 1). induction l; intros st; simpl; auto.
  - intros st i Hi. apply elem_of_seq in Hi.
    destruct (lookup_lt_is_Some_2 doc i) as [page Hpage]; [lia|].
    rewrite (get_item_lookup _ _ _ Hpage). cbn [rbind].
    assert (Hin : page ∈ doc) by (eapply list_elem_of_lookup_2; exact Hpage).
    destruct (Forall_lookup_1 _ _ _ _ Hread Hpage) as [blocks ->].
    cbn [rbind]. f_equal. apply scan_blocks_none_qualifies.
    intros span Hs. apply (Hnone (Ok blocks)); assumption.
Qed.

(* ================================================================== *)
(** * DefaultChapterizer                                               *)
(* ================================================================== *)

Lemma py_range_chunks (total : Z) :
  py_range 0 total pages_per_chapter
  = map (fun k => 20 * Z.of_nat k) (seq 0 (chunk_count total)).
Proof.
  unfold py_range, chunk_count, pages_per_chapter.
  replace (total - 0 + 20 - 1) with (total + 19) by lia.
  apply map_ext. intros k. lia.
Qed.

Lemma default_chapter_nth (total : Z) (acc : list Chapter) :
  default_chapter acc total (20 * Z.of_nat (length acc)) = nth_chunk total (length acc).
Proof.
  unfold default_chapter, nth_chunk, pages_per_chapter.
  f_equal. f_equal. f_equal. lia.
Qed.

Lemma fold_default_chunks (total : Z) (n : nat) :
  ∀ (acc : list Chapter),
    fold_left (fun chapters i => chapters ++ [default_chapter chapters total i])
              (map (fun k => 20 * Z.of_nat k) (seq (length acc) n)) acc
    = acc ++ map (nth_chunk total) (seq (length acc) n).
Proof.
  induction n as [|n IH]; intros acc.
  - simpl. now rewrite app_nil_r.
  - cbn [seq map fold_left]. rewrite default_chapter_nth.
    specialize (IH (acc ++ [nth_chunk total (length acc)])).
    rewrite length_app, Nat.add_1_r in IH. rewrite IH, <- app_assoc. reflexivity.
Qed.

(** The loop of the fallback builds the chunks one after the other. *)
Lemma default_chunks_closed (total : Z) :
  default_chunks total = map (nth_chunk total) (seq 0 (chunk_count total)).
Proof.
  unfold default_chunks. rewrite py_range_chunks.
  apply (fold_default_chunks total (chunk_count total) []).
Qed.

Lemma default_chunks_chapter_nums (total : Z) :
  map chapter_num (default_chunks total) = run 1 (length (default_chunks total)).
Proof.
  rewrite default_chunks_closed, length_map, length_seq, map_map.
  unfold run. apply map_ext. intros k. cbn. lia.
Qed.

(* ================================================================== *)
(** * The detection paths as wholes                                    *)
(* ================================================================== *)

Lemma bookmarks_body_chapter_nums (doc : Document) (chs : list Chapter) :
  bookmarks_body doc = Ok chs → map chapter_num chs = run 1 (length chs).
Proof.
  unfold bookmarks_body.
  destruct (pikepdf_open doc) as [pdf|]; [|discriminate]. cbn [rbind].
  destruct (outline_root pdf) as [root|]; [|discriminate]. cbn [rbind].
  destruct root as [|item items]; [now intros [= <-]|].
  rewrite calculate_end_pages_resolved. intros [= <-].
  rewrite resolved_chapter_nums, resolved_length. apply extract_chapter_nums.
Qed.

Lemma detect_from_bookmarks_chapter_nums (doc : Document) :
  map chapter_num (_detect_from_bookmarks doc)
  = run 1 (length (_detect_from_bookmarks doc)).
Proof.
  unfold _detect_from_bookmarks.
  destruct (bookmarks_body doc) as [chs|] eqn:Hb; [|reflexivity].
  now apply (bookmarks_body_chapter_nums doc).
Qed.

Lemma headings_body_inv (doc : Document) (chs : list Chapter) :
  headings_body doc = Ok chs →
  map chapter_num chs = run 1 (length chs)
  ∧ StronglySorted Z.le (map start_page chs).
Proof.
  unfold headings_body.
  destruct (fitz_open doc) as [pages|]; [|discriminate]. cbn [rbind].
  destruct (_analyze_font_sizes pages) as [sizes|]; [|discriminate]. cbn [rbind].
  destruct (scan_pages _ pages) as [st|] eqn:Hscan; [|discriminate]. cbn [rbind].
  rewrite calculate_end_pages_resolved. intros [= <-].
  apply scan_pages_inv in Hscan as (Hnum & _ & Hsorted & _).
  rewrite resolved_chapter_nums, resolved_start_pages, resolved_length. now split.
Qed.

Lemma detect_from_headings_chapter_nums (doc : Document) (chs : list Chapter) :
  _detect_from_headings doc = Ok chs → map chapter_num chs = run 1 (length chs).
Proof.
  unfold _detect_from_headings, try_except.
  destruct (headings_body doc) as [chs'|e] eqn:Hb.
  - intros [= <-]. now apply headings_body_inv in Hb.
  - unfold _create_default_chapters.
    destruct (pikepdf_open doc) as [pdf|]; [|discriminate]. cbn [rbind].
    intros [= <-]. apply default_chunks_chapter_nums.
Qed.

Lemma bookmarks_start_pages (doc : Document) (pdf : PikePdf) (root : list OutlineItem) :
  pikepdf_open doc = Ok pdf →
  outline_root pdf = Ok root →
  map start_page (_detect_from_bookmarks doc) = leaf_pages root.
Proof.
  intros Hopen Hroot. unfold _detect_from_bookmarks, bookmarks_body.
  rewrite Hopen. cbn [rbind]. rewrite Hroot. cbn [rbind].
  destruct root as [|item items]; [reflexivity|].
  rewrite calculate_end_pages_resolved, resolved_start_pages.
  apply extract_start_pages.
Qed.

(* ================================================================== *)
(** * The orchestration: which list, under which tag                   *)
(* ================================================================== *)

(** C2, as the code has it. When the bookmark path is empty and the
    heading scan raises, [detect_chapters] returns what the fallback
    builds for the page count pikepdf reports (the fixed chunks), and
    [detection_method] is ['headings']: the code has no ['default']
    tag. *)
Theorem heading_failure_returns_default_chunks (doc : Document) (method : option string)
    (e : string) (pdf : PikePdf) :
  _detect_from_bookmarks doc = [] →
  headings_body doc = Raise e →
  pikepdf_open doc = Ok pdf →
  detect_chapters doc method
  = (Ok (map (nth_chunk (Z.of_nat (num_pages pdf)))
             (seq 0 (chunk_count (Z.of_nat (num_pages pdf))))),
     Some "headings")
  ∧ _create_default_chapters doc
    = Ok (map (nth_chunk (Z.of_nat (num_pages pdf)))
              (seq 0 (chunk_count (Z.of_nat (num_pages pdf))))).
Proof.
  intros Hbm Hscan Hopen.
  assert (Hdef : _create_default_chapters doc
                 = Ok (map (nth_chunk (Z.of_nat (num_pages pdf)))
                           (seq 0 (chunk_count (Z.of_nat (num_pages pdf)))))).
  { unfold _create_default_chapters. rewrite Hopen. cbn [rbind].
    now rewrite default_chunks_closed. }
  split; [|exact Hdef].
  unfold detect_chapters, _detect_from_headings, try_except.
  now rewrite Hbm, Hscan, Hdef.
Qed.

Lemma heading_failure_returns_default_chunks_witness :
  detect_chapters corrupt7 None
  = (Ok (map (nth_chunk 7) (seq 0 (chunk_count 7))), Some "headings")
  ∧ _create_default_chapters corrupt7
    = Ok (map (nth_chunk 7) (seq 0 (chunk_count 7))).
Proof.
  apply (heading_failure_returns_default_chunks corrupt7 None
           "FileDataError: cannot open broken document" (mkPikePdf (Ok []) 7));
    reflexivity.
Defined.

(** C2 fails as stated: on [corrupt7] the heading scan raises and the
    result is the single chunk "Section 1", pages 0 to 6, but the tag
    is ['headings'], not ['default']. *)
Lemma heading_failure_tag_not_default :
  _detect_from_bookmarks corrupt7 = []
  ∧ headings_body corrupt7 = Raise "FileDataError: cannot open broken document"
  ∧ detect_chapters corrupt7 None
    = (Ok [ {| title := "Section 1"; full_title := "Section 1"; parent := "";
               start_page := 0; chapter_num := 1; level := 0;
               end_page := Some 6; font_size := None |} ],
       Some "headings")
  ∧ snd (detect_chapters corrupt7 None) ≠ Some "default".
Proof.
  split; [reflexivity|]. split; [reflexivity|]. split; [reflexivity|].
  cbn. discriminate.
Qed.

(** C3, as the code has it. [_create_default_chapters] opens the file
    with pikepdf to learn the page count. Whenever that succeeds the
    fallback returns, for every page count, the chunks of 20 pages
    numbered and titled in order; it raises exactly when the file
    cannot be opened. *)
Theorem create_default_chapters_succeeds_iff_opened (doc : Document) :
  (∀ pdf, pikepdf_open doc = Ok pdf →
     _create_default_chapters doc
     = Ok (map (nth_chunk (Z.of_nat (num_pages pdf)))
               (seq 0 (chunk_count (Z.of_nat (num_pages pdf))))))
  ∧ (∀ e, pikepdf_open doc = Raise e → _create_default_chapters doc = Raise e).
Proof.
  unfold _create_default_chapters. split.
  - intros pdf ->. cbn [rbind]. now rewrite default_chunks_closed.
  - now intros e ->.
Qed.

Lemma create_default_chapters_succeeds_iff_opened_witness :
  _create_default_chapters corrupt7 = Ok (map (nth_chunk 7) (seq 0 (chunk_count 7)))
  ∧ _create_default_chapters unreadable
    = Raise "PdfError: unable to find trailer dictionary".
Proof.
  split.
  - apply (proj1 (create_default_chapters_succeeds_iff_opened corrupt7)
             (mkPikePdf (Ok []) 7)). reflexivity.
  - apply (proj2 (create_default_chapters_succeeds_iff_opened unreadable)). reflexivity.
Defined.

(** C3 fails as stated: [unreadable] reaches the default path (no
    bookmarks, the heading scan raises) and there the fallback itself
    raises, so that [detect_chapters] raises too. *)
Lemma create_default_chapters_can_raise :
  _detect_from_bookmarks unreadable = []
  ∧ headings_body unreadable = Raise "FileDataError: cannot open broken document"
  ∧ _create_default_chapters unreadable
    = Raise "PdfError: unable to find trailer dictionary"
  ∧ ¬ succeeds (_create_default_chapters unreadable)
  ∧ detect_chapters unreadable None
    = (Raise "PdfError: unable to find trailer dictionary", None).
Proof.
  split; [reflexivity|]. split; [reflexivity|]. split; [reflexivity|].
  split; [|reflexivity]. intros [chs H]. discriminate H.
Qed.

(** C4, as the code has it. The list of the heading scan is in
    non-decreasing order of [start_page]. The list of the bookmark path
    is in outline order: its start pages are the destination pages of
    the resolvable leaves in the order a pre-order walk meets them, so
    it ascends exactly when those destinations do. No path sorts. *)
Theorem detection_order (doc : Document) :
  (∀ chs, headings_body doc = Ok chs → StronglySorted Z.le (map start_page chs))
  ∧ (∀ pdf root, pikepdf_open doc = Ok pdf → outline_root pdf = Ok root →
       map start_page (_detect_from_bookmarks doc) = leaf_pages root).
Proof.
  split.
  - intros chs H. now apply headings_body_inv in H.
  - intros pdf root. apply bookmarks_start_pages.
Qed.

Lemma detection_order_witness :
  StronglySorted Z.le (map start_page [])
  ∧ map start_page (_detect_from_bookmarks backwards) = [5; 0].
Proof.
  split.
  - apply (proj1 (detection_order plain_page) []). reflexivity.
  - apply (proj2 (detection_order backwards)
             (mkPikePdf (Ok [leaf_at "Appendix" 5; leaf_at "Introduction" 0]) 10)
             [leaf_at "Appendix" 5; leaf_at "Introduction" 0]); reflexivity.
Defined.

(** C4 fails as stated: the outline of [backwards] lists page 5 before
    page 0, and the bookmark path returns the candidates in that
    order. *)
Lemma bookmark_order_not_ascending :
  map start_page (_detect_from_bookmarks backwards) = [5; 0]
  ∧ fst (detect_chapters backwards None) = Ok (_detect_from_bookmarks backwards)
  ∧ ¬ Sorted Z.le (map start_page (_detect_from_bookmarks backwards)).
Proof.
  split; [reflexivity|]. split; [reflexivity|].
  intros H. change (Sorted Z.le [5; 0]) in H.
  inversion H as [|? ? _ Hhd]; subst. inversion Hhd as [|? ? Hle]; subst. lia.
Qed.

(** C5. The numbers of the candidates [detect_chapters] returns are
    1, 2, ..., K in list order, and so are, from their starting number,
    those of every call of [_extract_nested_bookmarks]; a leaf whose
    destination does not resolve contributes no candidate and uses no
    number: the outcome is that of the sibling list without it. *)
Theorem chapter_numbers_contiguous :
  (∀ doc method chs method',
     detect_chapters doc method = (Ok chs, method') →
     map chapter_num chs = map Z.of_nat (seq 1 (length chs)))
  ∧ (∀ items n p l,
       map chapter_num (_extract_nested_bookmarks items n p l)
       = run n (length (_extract_nested_bookmarks items n p l)))
  ∧ (∀ xs leaf ys n p l,
       children leaf = [] →
       _get_bookmark_page leaf = None →
       _extract_nested_bookmarks (xs ++ leaf :: ys) n p l
       = _extract_nested_bookmarks (xs ++ ys) n p l).
Proof.
  split; [|split].
  - intros doc method chs method'. unfold detect_chapters.
    rewrite <- run_from_one.
    destruct (_detect_from_bookmarks doc) as [|c rest] eqn:Hbm.
    + destruct (_detect_from_headings doc) as [chs'|e] eqn:Hh; [|discriminate].
      intros [= <- _]. now apply (detect_from_headings_chapter_nums doc).
    + intros [= <- _]. rewrite <- Hbm. apply detect_from_bookmarks_chapter_nums.
  - intros items. apply extract_chapter_nums.
  - intros xs leaf ys n p l. apply extract_skips_unresolved.
Qed.

(** C9. When the bookmark path gives nothing, every page can be read,
    the spans hold 7-bit text and none of them qualifies,
    [detect_chapters] returns the empty list under the tag
    ['headings']; the fallback is not run. *)
Theorem empty_scan_is_final (doc : Document) (method : option string) (pages : FitzDoc) :
  _detect_from_bookmarks doc = [] →
  fitz_open doc = Ok pages →
  Forall readable pages →
  ascii_spans pages →
  (∀ page span, page ∈ pages → span ∈ page_spans page →
     qualifies (_calculate_heading_threshold (sample_sizes pages)) span = false) →
  headings_body doc = Ok []
  ∧ detect_chapters doc method = (Ok [], Some "headings").
Proof.
  intros Hbm Hopen Hread _ Hnone.
  assert (Hbody : headings_body doc = Ok []).
  { unfold headings_body. rewrite Hopen. cbn [rbind].
    rewrite (analyze_font_sizes_succeeds _ Hread). cbn [rbind].
    rewrite (scan_pages_none_qualifies _ _ Hread Hnone). reflexivity. }
  split; [exact Hbody|].
  unfold detect_chapters, _detect_from_headings, try_except.
  now rewrite Hbm, Hbody.
Qed.

(* ================================================================== *)
(** * Threshold estimation                                             *)
(* ================================================================== *)

(** An integer below [2^53] is a binary64 number. *)
Lemma b64_round_exact (p : Z) : 0 <= p < 2 ^ 53 → b64_round p = p.
Proof.
  intros Hp. unfold b64_round.
  destruct (Z.leb_spec (Z.log2 p - 52) 0) as [_|Hs]; [reflexivity|].
  exfalso.
  destruct (Z.eq_dec p 0) as [->|Hnz]; [cbn in Hs; lia|].
  assert (Hlog : Z.log2 p < 53) by (apply Z.log2_lt_pow2; lia).
  lia.
Qed.

(** What rounding does to a larger integer: with [g] the weight of the
    last kept bit, the result is a multiple of [g] next to [p], at most
    half of [g] above it. *)
Lemma b64_round_grid (p : Z) :
  0 < Z.log2 p - 52 →
  let g := 2 ^ (Z.log2 p - 52) in
  (b64_round p = (p / g) * g ∨ (b64_round p = (p / g + 1) * g ∧ g <= 2 * (p mod g))).
Proof.
  intros Hs g. unfold b64_round.
  destruct (Z.leb_spec (Z.log2 p - 52) 0) as [Hle|_]; [lia|].
  set (s := Z.log2 p - 52) in *.
  rewrite Z.shiftr_div_pow2, Z.land_ones, !Z.shiftl_mul_pow2 by lia.
  fold g. rewrite Z.mul_1_l.
  assert (Hg : g = 2 * 2 ^ (s - 1)).
  { unfold g. rewrite <- Z.pow_succ_r by lia. f_equal. lia. }
  destruct ((2 ^ (s - 1) <? p mod g) || ((p mod g =? 2 ^ (s - 1)) && Z.odd (p / g)))
    eqn:Hup.
  - right. split; [reflexivity|].
    apply orb_true_iff in Hup as [Hup|Hup].
    + apply Z.ltb_lt in Hup. lia.
    + apply andb_true_iff in Hup as [Hup _]. apply Z.eqb_eq in Hup. lia.
  - left. reflexivity.
Qed.

(** For every length a list can have, the truncated binary64 product
    with [0.1] is the integer quotient by 10. *)
Lemma int_times_tenth_div (n : Z) : 0 <= n < 2 ^ 52 → int_times_tenth n = n / 10.
Proof.
  intros Hn. unfold int_times_tenth.
  rewrite (b64_round_exact n) by lia.
  rewrite Z.shiftr_div_pow2 by lia.
  pose proof (Z.div_mod n 10 ltac:(lia)) as Hdm.
  pose proof (Z.mod_pos_bound n 10 ltac:(lia)) as Hr.
  set (k := n / 10) in *. set (r := n mod 10) in *.
  unfold tenth_mantissa.
  change (2 ^ 52) with 4503599627370496 in Hn.
  symmetry. apply (Z.div_unique_pos _ _ k
                     (b64_round (n * 3602879701896397) - k * 2 ^ 55)); [|lia].
  change (2 ^ 55) with 36028797018963968.
  destruct (Z.leb_spec (Z.log2 (n * 3602879701896397) - 52) 0) as [Hsmall|Hbig].
  - assert (Hexact : b64_round (n * 3602879701896397) = n * 3602879701896397).
    { unfold b64_round.
      destruct (Z.leb_spec (Z.log2 (n * 3602879701896397) - 52) 0); [reflexivity|lia]. }
    rewrite Hexact. lia.
  - set (p := n * 3602879701896397) in *.
    assert (Hp : 0 < p).
    { destruct (Z.lt_ge_cases 0 p) as [H|H]; [exact H|].
      rewrite (Z.log2_nonpos p) in Hbig by lia. lia. }
    pose proof (Z.log2_spec p Hp) as [Hlo Hhi].
    set (s := Z.log2 p - 52) in *.
    replace (Z.log2 p) with (s + 52) in Hlo by (unfold s; lia).
    rewrite Z.pow_add_r in Hlo by lia.
    change (2 ^ 52) with 4503599627370496 in Hlo.
    pose proof (b64_round_grid p Hbig) as Hgrid. cbv zeta in Hgrid. fold s in Hgrid.
    set (g := 2 ^ s) in *.
    assert (Hgpos : 0 < g) by (unfold g; apply Z.pow_pos_nonneg; lia).
    assert (Hgn : g < n) by (unfold p in Hlo; nia).
    assert (Hs55 : s < 52).
    { apply (Z.pow_lt_mono_r_iff 2); [lia|lia|]. fold g.
      change (2 ^ 52) with 4503599627370496. lia. }
    assert (Hsplit : 36028797018963968 = g * 2 ^ (55 - s)).
    { unfold g. rewrite <- Z.pow_add_r by lia.
      replace (s + (55 - s)) with 55 by lia. reflexivity. }
    set (e := 2 ^ (55 - s)) in *.
    assert (Hepos : 0 < e) by (unfold e; apply Z.pow_pos_nonneg; lia).
    pose proof (Z.div_mod p g ltac:(lia)) as Hpdm.
    pose proof (Z.mod_pos_bound p g Hgpos) as Hpm.
    set (q := p / g) in *. set (m := p mod g) in *.
    assert (Hkq : k * e <= q).
    { apply Z.div_le_lower_bound; [lia|].
      replace (g * (k * e)) with (k * (g * e)) by ring. rewrite <- Hsplit.
      unfold p. lia. }
    assert (Hlow : k * 36028797018963968 <= q * g).
    { rewrite Hsplit. replace (k * (g * e)) with (k * e * g) by ring.
      apply Z.mul_le_mono_nonneg_r; lia. }
    destruct Hgrid as [HR|[HR Hhalf]]; rewrite HR.
    + split; [lia|]. unfold p in Hpdm. nia.
    + split; [nia|]. unfold p in Hpdm. nia.
Qed.

Lemma insert_desc_perm (x : Q) (l : list Q) : Permutation (x :: l) (insert_desc x l).
Proof.
  induction l as [|y rest IH]; simpl; [reflexivity|].
  destruct (Qle_bool y x); [reflexivity|].
  rewrite perm_swap. now apply perm_skip.
Qed.

Lemma sorted_reverse_perm (l : list Q) : Permutation l (sorted_reverse l).
Proof.
  induction l as [|x rest IH]; simpl; [reflexivity|].
  rewrite <- insert_desc_perm. now apply perm_skip.
Qed.

Lemma sorted_reverse_length (l : list Q) : length (sorted_reverse l) = length l.
Proof. symmetry. apply Permutation_length, sorted_reverse_perm. Qed.

Lemma insert_desc_sorted (x : Q) (l : list Q) :
  Sorted desc l → Sorted desc (insert_desc x l).
Proof.
  induction 1 as [|y rest Hs IH Hhd]; simpl.
  - repeat constructor.
  - destruct (Qle_bool y x) eqn:Hyx.
    + apply Qle_bool_iff in Hyx. repeat constructor; assumption.
    + assert (Hxy : (x <= y)%Q).
      { apply Qlt_le_weak, Qnot_le_lt. intros H. apply Qle_bool_iff in H. congruence. }
      constructor; [exact IH|].
      destruct rest as [|z rest']; simpl.
      * now constructor.
      * destruct (Qle_bool z x); constructor; [exact Hxy|].
        now inversion Hhd.
Qed.

Lemma sorted_reverse_sorted (l : list Q) : Sorted desc (sorted_reverse l).
Proof.
  induction l as [|x rest IH]; simpl; [constructor | now apply insert_desc_sorted].
Qed.

Lemma count_perm (p : Q → bool) (l1 l2 : list Q) :
  Permutation l1 l2 → count p l1 = count p l2.
Proof.
  induction 1 as [|x l l' _ IH|x y l|l l' l'' _ IH1 _ IH2]; cbn [count];
    [reflexivity | now rewrite IH | lia | congruence].
Qed.

Lemma count_mono (p q : Q → bool) (l : list Q) :
  (∀ x, p x = true → q x = true) → (count p l <= count q l)%nat.
Proof.
  intros Hpq. induction l as [|x rest IH]; cbn [count]; [lia|].
  destruct (p x) eqn:Hp; [rewrite (Hpq x Hp)|destruct (q x)]; lia.
Qed.

Lemma desc_transitive : Transitive desc.
Proof. intros a b c Hab Hbc. unfold desc in *. now apply (Qle_trans c b a). Qed.

(** In a descending list, the element at index [i] has more than [i]
    elements that are at least as large ... *)
Lemma desc_count_at_least (l : list Q) (i : nat) (v : Q) :
  StronglySorted desc l → l !! i = Some v → (i < count (Qle_bool v) l)%nat.
Proof.
  intros Hs. revert i. induction Hs as [|x rest Hs IH Hx]; intros i Hv; [discriminate|].
  cbn [count]. destruct i as [|j].
  - injection Hv as ->.
    rewrite (proj2 (Qle_bool_iff v v) (Qle_refl v)). lia.
  - cbn in Hv. pose proof (IH j Hv) as Hj.
    assert (Hvx : desc x v).
    { apply (proj1 (List.Forall_forall _ _) Hx).
      apply list_elem_of_In. eapply list_elem_of_lookup_2. exact Hv. }
    rewrite (proj2 (Qle_bool_iff v x) Hvx). lia.
Qed.

(** ... and at most [i] elements that are larger. *)
Lemma desc_count_above (l : list Q) (i : nat) (v : Q) :
  StronglySorted desc l → l !! i = Some v →
  (count (fun x => negb (Qle_bool x v)) l <= i)%nat.
Proof.
  intros Hs. revert i. induction Hs as [|x rest Hs IH Hx]; intros i Hv; [discriminate|].
  cbn [count]. destruct i as [|j].
  - injection Hv as ->.
    rewrite (proj2 (Qle_bool_iff v v) (Qle_refl v)). cbn [negb Nat.add].
    clear IH Hs. induction Hx as [|y rest Hy _ IH]; cbn [count]; [lia|].
    rewrite (proj2 (Qle_bool_iff y v) Hy). cbn [negb Nat.add]. exact IH.
  - cbn in Hv. pose proof (IH j Hv). destruct (negb (Qle_bool x v)); lia.
Qed.

(** Two descending arrangements of the same sizes agree, as numbers,
    at every index. *)
Lemma desc_sorted_unique (l1 l2 : list Q) (i : nat) (v1 v2 : Q) :
  Permutation l1 l2 →
  Sorted desc l1 → Sorted desc l2 →
  l1 !! i = Some v1 → l2 !! i = Some v2 →
  (v1 == v2)%Q.
Proof.
  intros Hperm Hs1 Hs2 H1 H2.
  apply (Sorted_StronglySorted desc_transitive) in Hs1, Hs2.
  assert (Hle : ∀ la lb a b, Permutation la lb →
            StronglySorted desc la → StronglySorted desc lb →
            la !! i = Some a → lb !! i = Some b → (b <= a)%Q).
  { intros la lb a b Hp Ha Hb Hia Hib.
    destruct (Qlt_le_dec a b) as [Hlt|Hge]; [exfalso|exact Hge].
    pose proof (desc_count_at_least lb i b Hb Hib) as Hmany.
    pose proof (desc_count_above la i a Ha Hia) as Hfew.
    rewrite <- (count_perm _ la lb Hp) in Hmany.
    pose proof (count_mono (Qle_bool b) (fun x => negb (Qle_bool x a)) la) as Hmono.
    assert (Himp : ∀ x, Qle_bool b x = true → negb (Qle_bool x a) = true).
    { intros x Hbx. apply Qle_bool_iff in Hbx.
      destruct (Qle_bool x a) eqn:Hxa; [|reflexivity].
      apply Qle_bool_iff in Hxa. exfalso.
      apply (Qlt_irrefl a). apply (Qlt_le_trans a b a); [exact Hlt|].
      now apply (Qle_trans b x a). }
    specialize (Hmono Himp). lia. }
  apply Qle_antisym.
  - apply (Hle l2 l1 v2 v1); [now symmetry|assumption..].
  - apply (Hle l1 l2 v1 v2); assumption.
Qed.

(** The threshold of a non-empty sample is read at index [N / 10] of
    the sorted sample; the guard on the index never fails. *)
Lemma calculate_heading_threshold_index (sizes : list Q) :
  sizes ≠ [] →
  Z.of_nat (length sizes) < 2 ^ 52 →
  sorted_reverse sizes !! (length sizes / 10)%nat
  = Some (_calculate_heading_threshold sizes).
Proof.
  intros Hne Hlen. unfold _calculate_heading_threshold.
  destruct sizes as [|x rest]; [contradiction|].
  set (sizes := x :: rest) in *.
  rewrite sorted_reverse_length, int_times_tenth_div by lia.
  assert (Hidx : Z.of_nat (length sizes) / 10 = Z.of_nat (length sizes / 10))
    by (now rewrite Nat2Z.inj_div).
  rewrite Hidx, Nat2Z.id.
  assert (Hlt : (length sizes / 10 < length sizes)%nat).
  { apply Nat.div_lt; [simpl|]; lia. }
  destruct (Z.ltb_spec (Z.of_nat (length sizes / 10)) (Z.of_nat (length sizes))); [|lia].
  destruct (lookup_lt_is_Some_2 (sorted_reverse sizes) (length sizes / 10)) as [v Hv];
    [now rewrite sorted_reverse_length|].
  rewrite Hv. f_equal. symmetry. now apply nth_lookup_Some.
Qed.

(** C6. The sample is made of the font sizes of the spans of the first
    20 pages at most. If it is empty the threshold is 14.0; otherwise
    the threshold is the element at index [floor(0.1 * N)] of the [N]
    sampled sizes sorted in descending order ([N] below [2^52], which
    every list in memory is): such an arrangement exists with the
    threshold at that index, and every descending arrangement of the
    sample has the same number there. *)
Theorem heading_threshold_spec (doc : FitzDoc) (sizes : list Q) :
  _analyze_font_sizes doc = Ok sizes →
  sizes = flat_map (fun page => map span_size (page_spans page)) (take 20 doc)
  ∧ (sizes = [] → _calculate_heading_threshold sizes = 14 # 1)
  ∧ (sizes ≠ [] → Z.of_nat (length sizes) < 2 ^ 52 →
       (∃ sorted_sizes,
          Permutation sizes sorted_sizes
          ∧ Sorted desc sorted_sizes
          ∧ sorted_sizes !! (length sizes / 10)%nat
            = Some (_calculate_heading_threshold sizes))
       ∧ (∀ sorted_sizes,
            Permutation sizes sorted_sizes →
            Sorted desc sorted_sizes →
            ∃ v, sorted_sizes !! (length sizes / 10)%nat = Some v
                 ∧ (v == _calculate_heading_threshold sizes)%Q)).
Proof.
  intros Hsample. split; [|split].
  - now apply analyze_font_sizes_sample.
  - now intros ->.
  - intros Hne Hlen.
    pose proof (calculate_heading_threshold_index sizes Hne Hlen) as Hidx.
    split.
    + exists (sorted_reverse sizes).
      split; [apply sorted_reverse_perm|].
      split; [apply sorted_reverse_sorted | exact Hidx].
    + intros sorted_sizes Hperm Hsorted.
      destruct (lookup_lt_is_Some_2 sorted_sizes (length sizes / 10)) as [v Hv].
      { rewrite <- (Permutation_length Hperm).
        apply lookup_lt_Some in Hidx. now rewrite sorted_reverse_length in Hidx. }
      exists v. split; [exact Hv|].
      apply (desc_sorted_unique sorted_sizes (sorted_reverse sizes) (length sizes / 10));
        [|exact Hsorted|apply sorted_reverse_sorted|exact Hv|exact Hidx].
      rewrite <- Hperm. apply sorted_reverse_perm.
Qed.

(* ================================================================== *)
(** * The heading-pattern test                                         *)
(* ================================================================== *)

Lemma all_chars_complete (c : ascii) : c ∈ all_chars.
Proof.
  unfold all_chars. rewrite <- (ascii_nat_embedding c).
  apply list_elem_of_In, in_map, in_seq.
  pose proof (nat_ascii_bounded c). lia.
Qed.

Lemma needs_class (p q : ascii → bool) (c : ascii) :
  needs q (Class p) = true → p c = true → q c = true.
Proof.
  cbn [needs]. intros Hall Hp.
  rewrite forallb_forall in Hall.
  specialize (Hall c (proj1 (list_elem_of_In _ _) (all_chars_complete c))).
  now rewrite Hp in Hall.
Qed.

Lemma needs_not_nullable (q : ascii → bool) (r : regex) :
  needs q r = true → nullable r = false.
Proof.
  induction r as [| |p|r1 IH1 r2 IH2|r1 IH1 r2 IH2|r IH]; cbn [needs nullable];
    intros H; try reflexivity; try discriminate.
  - apply orb_true_iff in H as [H|H].
    + now rewrite IH1.
    + rewrite IH2 by assumption. apply andb_false_r.
  - apply andb_true_iff in H as [H1 H2]. now rewrite IH1, IH2.
Qed.

(** Reading a character outside the class keeps the need for it. *)
Lemma needs_deriv (q : ascii → bool) (c : ascii) (r : regex) :
  q c = false → needs q r = true → needs q (deriv c r) = true.
Proof.
  intros Hc.
  induction r as [| |p|r1 IH1 r2 IH2|r1 IH1 r2 IH2|r IH]; cbn [deriv];
    intros H; try reflexivity; try discriminate.
  - destruct (p c) eqn:Hp; [|reflexivity].
    pose proof (needs_class p q c H Hp). congruence.
  - cbn [needs] in H. apply orb_true_iff in H.
    destruct (nullable r1) eqn:Hn; cbn [needs].
    + destruct H as [H|H].
      * apply needs_not_nullable in H. congruence.
      * rewrite H, (IH2 H). now rewrite orb_true_r.
    + destruct H as [H|H]; [now rewrite (IH1 H) | now rewrite H, orb_true_r].
  - cbn [needs] in *. apply andb_true_iff in H as [H1 H2].
    now rewrite (IH1 H1), (IH2 H2).
Qed.

(** A text without any character of the class a pattern needs is not
    matched, with or without [$]. *)
Lemma needs_no_match (q : ascii → bool) (text : list ascii) :
  Forall (fun c => q c = false) text →
  ∀ r, needs q r = true → match_prefix r text = false ∧ match_anchored r text = false.
Proof.
  induction 1 as [|c rest Hc _ IH]; intros r Hr;
    pose proof (needs_not_nullable q r Hr) as Hn.
  - cbn. now rewrite Hn.
  - cbn [match_prefix match_anchored]. rewrite Hn. cbn [orb andb].
    apply IH. now apply needs_deriv.
Qed.

Lemma isupper_lower_char (c : ascii) : isupper (lower_char c) = false.
Proof. destruct c as [[] [] [] [] [] [] [] []]; reflexivity. Qed.

Lemma lower_no_upper (text : list ascii) :
  Forall (fun c => isupper c = false) (lower text).
Proof.
  unfold lower. induction text as [|c rest IH]; cbn [map]; constructor;
    [apply isupper_lower_char | exact IH].
Qed.

(** On lower-cased text only the first pattern can match: the four
    others need an upper-case letter. *)
Lemma upper_patterns_dead (text : list ascii) (pat : pattern) :
  pat ∈ [pat_numbered; pat_allcaps; pat_part; pat_section] →
  re_search pat (lower text) = false.
Proof.
  intros Hin.
  assert (Hneeds : needs isupper (body pat) = true).
  { repeat (apply elem_of_cons in Hin as [->|Hin]; [vm_compute; reflexivity|]).
    now apply elem_of_nil in Hin. }
  destruct (needs_no_match isupper (lower text) (lower_no_upper text) (body pat) Hneeds)
    as [Hp Ha].
  unfold re_search. now destruct (dollar pat).
Qed.

(** What [_is_chapter_heading] computes. *)
Lemma is_chapter_heading_effective (text : string) :
  _is_chapter_heading text
  = re_search pat_chapter (lower (chars text)) || short_capitalised (chars text).
Proof.
  unfold _is_chapter_heading, patterns. cbn [existsb].
  rewrite (upper_patterns_dead _ pat_numbered), (upper_patterns_dead _ pat_allcaps),
    (upper_patterns_dead _ pat_part), (upper_patterns_dead _ pat_section)
    by (apply list_elem_of_In; cbn [In]; auto 10).
  cbn [orb]. rewrite orb_false_r.
  destruct (re_search pat_chapter _); [reflexivity|].
  now destruct (short_capitalised _).
Qed.

Lemma void_no_match (r : regex) (text : list ascii) :
  needs no_char r = true → match_prefix r text = false.
Proof.
  intros Hr. apply (needs_no_match no_char text); [|exact Hr].
  apply Forall_forall. reflexivity.
Qed.

(** A text the second pattern matches starts with a digit. *)
Lemma numbered_starts_with_digit (text : list ascii) :
  re_search pat_numbered text = true →
  ∃ c rest, text = c :: rest ∧ isdigit c = true.
Proof.
  unfold re_search. cbn [dollar body pat_numbered].
  destruct text as [|c rest]; [discriminate|].
  intros H. exists c, rest. split; [reflexivity|].
  destruct (isdigit c) eqn:Hd; [reflexivity|].
  cbn [match_prefix nullable Plus digit andb orb deriv] in H.
  rewrite Hd in H. rewrite void_no_match in H by reflexivity. discriminate.
Qed.

(** A text that starts with a digit fails the first pattern and the
    catch-all. *)
Lemma digit_first_rejected (c : ascii) (rest : list ascii) :
  isdigit c = true →
  re_search pat_chapter (lower (c :: rest)) = false
  ∧ short_capitalised (c :: rest) = false.
Proof.
  intros Hd. split.
  - unfold re_search. cbn [dollar body pat_chapter lower map match_prefix].
    destruct c as [[] [] [] [] [] [] [] []]; try discriminate Hd;
      (rewrite void_no_match by reflexivity; reflexivity).
  - unfold short_capitalised.
    replace (isupper c) with false; [apply andb_false_r|].
    destruct c as [[] [] [] [] [] [] [] []]; try discriminate Hd; reflexivity.
Qed.

(** Every text of the form "<number>. <capitalised word>" is rejected:
    the pattern written for it is applied to the lower-cased text, and
    the catch-all wants a capital first. *)
Lemma numbered_always_rejected (text : string) :
  re_search pat_numbered (chars text) = true → _is_chapter_heading text = false.
Proof.
  intros H. rewrite is_chapter_heading_effective.
  destruct (numbered_starts_with_digit _ H) as (c & rest & -> & Hd).
  destruct (digit_first_rejected c rest Hd) as [-> ->]. reflexivity.
Qed.

Lemma lower_char_not_digit (c : ascii) :
  isupper c || isspace c = true → isdigit (lower_char c) = false.
Proof.
  destruct c as [[] [] [] [] [] [] [] []]; vm_compute; intros H;
    first [reflexivity | discriminate H].
Qed.

(** Capitals and spaces only: accepted from 4 to 99 characters when the
    first is a capital (by the catch-all), rejected from 100 on. *)
Lemma capitals_by_length (text : string) :
  Forall (fun c => isupper c || isspace c = true) (chars text) →
  _is_chapter_heading text = short_capitalised (chars text).
Proof.
  intros Hcaps. rewrite is_chapter_heading_effective.
  replace (re_search pat_chapter (lower (chars text))) with false; [reflexivity|].
  symmetry. unfold re_search. cbn [dollar pat_chapter body].
  apply (needs_no_match isdigit); [|reflexivity].
  unfold lower. apply Forall_map. eapply Forall_impl; [exact Hcaps|].
  intros c Hc. now apply lower_char_not_digit.
Qed.

Lemma long_capitals_rejected (text : string) :
  Forall (fun c => isupper c || isspace c = true) (chars text) →
  (100 <= length (chars text))%nat →
  _is_chapter_heading text = false.
Proof.
  intros Hcaps Hlen. rewrite (capitals_by_length _ Hcaps).
  unfold short_capitalised.
  destruct (Z.ltb_spec (Z.of_nat (length (chars text))) 100); [lia|reflexivity].
Qed.

(** C7, on the code. "1. Introduction" has the form "<number>.
    <capitalised word>" (the second pattern matches it as it is
    written), and [_is_chapter_heading] rejects it. *)
Theorem numbered_heading_rejected :
  re_search pat_numbered (chars "1. Introduction") = true
  ∧ _is_chapter_heading "1. Introduction" = false.
Proof. split; vm_compute; reflexivity. Qed.

(** C8, on the code. One hundred capital letters are matched by the
    third pattern as it is written, and [_is_chapter_heading] rejects
    them. *)
Theorem long_capitals_heading_rejected :
  length (chars hundred_capitals) = 100%nat
  ∧ Forall (fun c => isupper c = true) (chars hundred_capitals)
  ∧ re_search pat_allcaps (chars hundred_capitals) = true
  ∧ _is_chapter_heading hundred_capitals = false.
Proof.
  split; [reflexivity|]. split; [|split; vm_compute; reflexivity].
  unfold hundred_capitals, chars. rewrite list_ascii_of_string_of_list_ascii.
  apply Forall_forall. intros c Hc. apply list_elem_of_In, repeat_spec in Hc. now subst.
Qed.

(* ================================================================== *)
(** * The statements at concrete documents                             *)
(* ================================================================== *)

Lemma chapter_numbers_contiguous_witness :
  map chapter_num (_detect_from_bookmarks book) = map Z.of_nat (seq 1 3)
  ∧ map chapter_num (_extract_nested_bookmarks two_parts 7 "" 0) = run 7 3
  ∧ _extract_nested_bookmarks
      ([leaf_at "ChapterA" 0] ++ broken_leaf :: [leaf_at "ChapterB" 5]) 1 "" 0
    = _extract_nested_bookmarks
        ([leaf_at "ChapterA" 0] ++ [leaf_at "ChapterB" 5]) 1 "" 0.
Proof.
  split; [|split].
  - apply (proj1 chapter_numbers_contiguous book None
             (_detect_from_bookmarks book) (Some "bookmarks")).
    reflexivity.
  - apply (proj1 (proj2 chapter_numbers_contiguous) two_parts 7 "" 0).
  - apply (proj2 (proj2 chapter_numbers_contiguous)); reflexivity.
Defined.

Lemma heading_threshold_spec_witness :
  scenario_sizes
  = flat_map (fun page => map span_size (page_spans page)) (take 20 scenario_pages)
  ∧ (∃ sorted_sizes,
       Permutation scenario_sizes sorted_sizes
       ∧ Sorted desc sorted_sizes
       ∧ sorted_sizes !! 1%nat = Some (_calculate_heading_threshold scenario_sizes))
  ∧ (∀ sorted_sizes,
       Permutation scenario_sizes sorted_sizes →
       Sorted desc sorted_sizes →
       ∃ v, sorted_sizes !! 1%nat = Some v
            ∧ (v == _calculate_heading_threshold scenario_sizes)%Q).
Proof.
  destruct (heading_threshold_spec scenario_pages scenario_sizes eq_refl)
    as (Hsample & _ & Hindex).
  split; [exact Hsample|].
  apply Hindex; [discriminate | reflexivity].
Defined.

Lemma empty_scan_is_final_witness :
  headings_body plain_page = Ok []
  ∧ detect_chapters plain_page None = (Ok [], Some "headings").
Proof.
  apply (empty_scan_is_final plain_page None
           [Ok [Some [[mkSpan "hello world" (10 # 1)]]]]).
  - reflexivity.
  - reflexivity.
  - repeat constructor. now eexists.
  - repeat constructor.
  - intros page span Hpage Hspan.
    apply list_elem_of_singleton in Hpage. subst page.
    apply list_elem_of_singleton in Hspan. subst span.
    reflexivity.
Defined.

(** The scenarios of the specification, run on the embedding. *)

Example flatten_two_parts :
  detect_chapters book None
  = (Ok [ {| title := "ChapterA"; full_title := "Part I → ChapterA"; parent := "Part I";
             start_page := 0; chapter_num := 1; level := 1;
             end_page := Some 4; font_size := None |};
          {| title := "ChapterB"; full_title := "Part I → ChapterB"; parent := "Part I";
             start_page := 5; chapter_num := 2; level := 1;
             end_page := Some 9; font_size := None |};
          {| title := "ChapterC"; full_title := "Part II → ChapterC"; parent := "Part II";
             start_page := 10; chapter_num := 3; level := 1;
             end_page := Some 14; font_size := None |} ],
     Some "bookmarks").
Proof. reflexivity. Qed.

Example default_chunks_45 :
  map (fun c => (title c, start_page c, end_page c)) (default_chunks 45)
  = [ ("Section 1", 0, Some 19); ("Section 2", 20, Some 39); ("Section 3", 40, Some 44) ].
Proof. reflexivity. Qed.

Example heading_scenario :
  _calculate_heading_threshold scenario_sizes = 18 # 1
  ∧ detect_chapters scenario None
    = (Ok [ {| title := "Chapter 1"; full_title := "Chapter 1"; parent := "";
               start_page := 3; chapter_num := 1; level := 0;
               end_page := Some 3; font_size := Some (20 # 1) |} ],
       Some "headings").
Proof. split; reflexivity. Qed.

(** A malformed destination resolves to no page. *)
Example broken_leaf_unresolved : _get_bookmark_page broken_leaf = None.
Proof. reflexivity. Qed.

(** Two headings on one page: the first gets an end page before its
    start page. *)
Example same_page_headings :
  resolved [heading_chapter "One" 2 1 (20 # 1); heading_chapter "Two" 2 2 (20 # 1)] 5
  = [ set_end_page 1 (heading_chapter "One" 2 1 (20 # 1));
      set_end_page 4 (heading_chapter "Two" 2 2 (20 # 1)) ].
Proof. reflexivity. Qed.

(* ================================================================== *)
(** * Further properties of the flattener                              *)
(* ================================================================== *)

(** X1. An outline level made of leaves only gives one chapter per leaf
    whose page resolves, in outline order, numbered consecutively from
    the starting number, all under the same parent and at the same
    level. *)
Theorem extract_flat_outline (items : list OutlineItem) (n : Z) (p : string) (l : Z) :
  Forall (fun item => children item = []) items →
  _extract_nested_bookmarks items n p l
  = imap (fun i leaf => bookmark_chapter (fst leaf) p (snd leaf) (n + Z.of_nat i) l)
         (resolvable_leaves items).
Proof.
  intros Hflat. revert n.
  induction Hflat as [|item items Hleaf _ IH]; intros n; [reflexivity|].
  destruct item as [t d a kids]. cbn in Hleaf. subst kids.
  rewrite extract_cons, item_chapters_leaf. unfold resolvable_leaves. cbn [omap list_omap].
  fold (resolvable_leaves items).
  destruct (_get_bookmark_page (mkItem t d a [])) as [page|].
  - cbn [length app imap item_title fst snd]. rewrite IH. f_equal.
    + f_equal. lia.
    + apply imap_ext. intros i x _. cbn. f_equal. lia.
  - cbn [length app]. rewrite IH. apply imap_ext. intros i x _. f_equal. lia.
Qed.

Lemma extract_flat_outline_witness :
  _extract_nested_bookmarks flat_outline 1 "" 0
  = imap (fun i leaf => bookmark_chapter (fst leaf) "" (snd leaf) (1 + Z.of_nat i) 0)
         (resolvable_leaves flat_outline).
Proof.
  apply (extract_flat_outline flat_outline 1 "" 0).
  repeat constructor.
Defined.

(** X2. Every chapter of the bookmark path carries its title with the
    path of its ancestors in front: [full_title] is [title] when
    [parent] is empty and [parent → title] otherwise; it was found at a
    level that is not negative, and a chapter of level 0 has no
    parent. *)
Theorem bookmark_titles (doc : Document) :
  Forall (fun c => full_title c = join_titles (parent c) (title c)
                   ∧ 0 <= level c
                   ∧ (level c = 0 → parent c = "" ∧ full_title c = title c)
                   ∧ font_size c = None)
         (_detect_from_bookmarks doc).
Proof.
  assert (Hitems : ∀ items n p l,
            Forall (fun c => full_title c = join_titles (parent c) (title c)
                             ∧ l <= level c
                             ∧ (level c = l → parent c = p)
                             ∧ font_size c = None)
                   (_extract_nested_bookmarks items n p l)).
  { assert (Hitem : ∀ item n p l,
              Forall (fun c => full_title c = join_titles (parent c) (title c)
                               ∧ l <= level c
                               ∧ (level c = l → parent c = p)
                               ∧ font_size c = None)
                     (item_chapters p l n item)).
    { intros item. induction item as [t d a kids IHkids] using OutlineItem_nested_ind.
      intros n p l. destruct kids as [|k kids].
      - rewrite item_chapters_leaf. destruct (_get_bookmark_page _); constructor.
        + cbn. repeat split; lia.
        + constructor.
      - rewrite item_chapters_container.
        assert (Hsub : ∀ n' p' l',
                  Forall (fun c => full_title c = join_titles (parent c) (title c)
                                   ∧ l' <= level c
                                   ∧ (level c = l' → parent c = p')
                                   ∧ font_size c = None)
                         (_extract_nested_bookmarks (k :: kids) n' p' l')).
        { generalize dependent (k :: kids). clear k kids.
          intros kids IHkids. induction IHkids as [|x xs Hx _ IHxs]; intros n' p' l'.
          - constructor.
          - rewrite extract_cons. apply Forall_app. split; [apply Hx | apply IHxs]. }
        eapply Forall_impl; [apply Hsub|].
        cbn. intros c (Hft & Hlev & _ & Hfs). repeat split; [assumption|lia|lia|assumption]. }
    induction items as [|x xs IH]; intros n p l; [constructor|].
    rewrite extract_cons. apply Forall_app. split; [apply Hitem | apply IH]. }
  unfold _detect_from_bookmarks, bookmarks_body.
  destruct (pikepdf_open doc) as [pdf|]; [|constructor]. cbn [rbind].
  destruct (outline_root pdf) as [root|]; [|constructor]. cbn [rbind].
  destruct root as [|item items]; [constructor|].
  rewrite calculate_end_pages_resolved.
  generalize (Hitems (item :: items) 1 "" 0).
  generalize (_extract_nested_bookmarks (item :: items) 1 "" 0) as chs.
  intros chs Hchs. induction Hchs as [|c rest (Hft & Hlev & Hpar & Hfs) _ IH]; [constructor|].
  cbn [resolved]. constructor; [|exact IH].
  cbn. repeat split; try assumption.
  - now apply Hpar.
  - rewrite Hft, (Hpar H). reflexivity.
Qed.

Lemma extract_shift (items : list OutlineItem) (n d : Z) (p : string) (l : Z) :
  _extract_nested_bookmarks items (n + d) p l
  = map (renumber d) (_extract_nested_bookmarks items n p l).
Proof.
  revert n p l.
  assert (Hitem : ∀ item n p l,
            item_chapters p l (n + d) item = map (renumber d) (item_chapters p l n item)).
  { intros item. induction item as [t da a kids IHkids] using OutlineItem_nested_ind.
    intros n p l. destruct kids as [|k kids].
    - rewrite !item_chapters_leaf. destruct (_get_bookmark_page _); reflexivity.
    - rewrite !item_chapters_container.
      generalize (join_titles p t) (l + 1). clear p l. revert n.
      generalize dependent (k :: kids). clear k kids.
      intros kids IHkids. induction IHkids as [|x xs Hx _ IHxs]; intros n p l.
      + reflexivity.
      + rewrite !extract_cons, map_app, Hx, length_map. f_equal.
        rewrite <- IHxs. f_equal. lia. }
  induction items as [|x xs IH]; intros n p l; [reflexivity|].
  rewrite !extract_cons, map_app, Hitem, length_map. f_equal.
  rewrite <- IH. f_equal. lia.
Qed.

(** X3. The starting number only shifts the numbers: extracting from
    [n + d] gives the chapters extracted from [n] with [d] added to
    every [chapter_num]. *)
Theorem extract_renumber (items : list OutlineItem) (n d : Z) (p : string) (l : Z) :
  _extract_nested_bookmarks items (n + d) p l
  = map (renumber d) (_extract_nested_bookmarks items n p l).
Proof. apply extract_shift. Qed.

(** X4. A sibling list can be processed in two parts: the chapters of
    the whole are those of the first part followed by those of the
    second, renumbered to continue where the first part stopped. *)
Theorem extract_in_two_parts (xs ys : list OutlineItem) (n : Z) (p : string) (l : Z) :
  _extract_nested_bookmarks (xs ++ ys) n p l
  = _extract_nested_bookmarks xs n p l
    ++ map (renumber (Z.of_nat (length (_extract_nested_bookmarks xs n p l))))
           (_extract_nested_bookmarks ys n p l).
Proof. rewrite extract_app, extract_shift. reflexivity. Qed.

(* ================================================================== *)
(** * Further properties of the orchestration                          *)
(* ================================================================== *)

Lemma resolved_end_pages_set (chapters : list Chapter) (total : Z) :
  Forall (fun c => is_Some (end_page c)) (resolved chapters total).
Proof.
  induction chapters as [|c rest IH]; cbn [resolved]; constructor; [|exact IH].
  cbn. eauto.
Qed.

Lemma bookmarks_length (doc : Document) (pdf : PikePdf) (root : list OutlineItem) :
  pikepdf_open doc = Ok pdf →
  outline_root pdf = Ok root →
  length (_detect_from_bookmarks doc) = length (leaf_pages root).
Proof.
  intros Hopen Hroot.
  rewrite <- (bookmarks_start_pages doc pdf root Hopen Hroot). now rewrite length_map.
Qed.

(** X5. The bookmark path decides the result exactly when pikepdf opens
    the file, the outline can be read and at least one leaf of it
    resolves to a page; then the result has one chapter per such leaf
    and the tag is ['bookmarks']. In every other case the list comes
    from [_detect_from_headings]. *)
Theorem bookmarks_chosen_iff (doc : Document) (method : option string) :
  (∃ pdf root, pikepdf_open doc = Ok pdf ∧ outline_root pdf = Ok root
               ∧ leaf_pages root ≠ [])
  ↔ (∃ chs, detect_chapters doc method = (Ok chs, Some "bookmarks")
            ∧ chs = _detect_from_bookmarks doc ∧ chs ≠ []).
Proof.
  split.
  - intros (pdf & root & Hopen & Hroot & Hleaves).
    pose proof (bookmarks_length doc pdf root Hopen Hroot) as Hlen.
    unfold detect_chapters.
    destruct (_detect_from_bookmarks doc) as [|c rest] eqn:Hbm.
    + destruct (leaf_pages root); [contradiction|discriminate].
    + eexists. split; [reflexivity|]. split; [reflexivity|discriminate].
  - intros (chs & Hdet & -> & Hne). unfold detect_chapters in Hdet.
    destruct (_detect_from_bookmarks doc) as [|c rest] eqn:Hbm; [contradiction|].
    pose proof Hbm as Hbody. unfold _detect_from_bookmarks, bookmarks_body in Hbody.
    destruct (pikepdf_open doc) as [pdf|] eqn:Hopen; [|discriminate].
    cbn [rbind] in Hbody.
    destruct (outline_root pdf) as [root|] eqn:Hroot; [|discriminate].
    exists pdf, root. split; [reflexivity|]. split; [exact Hroot|].
    intros Hnil.
    pose proof (bookmarks_length doc pdf root Hopen Hroot) as Hlen.
    rewrite Hbm, Hnil in Hlen. discriminate.
Qed.

Lemma bookmarks_chosen_iff_witness :
  ∃ chs, detect_chapters book None = (Ok chs, Some "bookmarks")
         ∧ chs = _detect_from_bookmarks book ∧ chs ≠ [].
Proof.
  apply (proj1 (bookmarks_chosen_iff book None)).
  exists (mkPikePdf (Ok two_parts) 15), two_parts.
  split; [reflexivity|]. split; [reflexivity|]. discriminate.
Defined.

(** X6. [_get_bookmark_page] reads the first element of the destination
    when the destination is a non-empty array, and the first element of
    the action's ['/D'] only when there is no such destination. A
    destination whose first element cannot be turned into a page gives
    [None] even if the action points to a page. *)
Theorem get_bookmark_page_cases (item : OutlineItem) (page : Z) :
  _get_bookmark_page item = Some page
  ↔ (∃ rest, destination item = Some (Ok page :: rest))
    ∨ ((destination item = None ∨ destination item = Some [])
       ∧ ∃ rest, action item = Some (Some (Ok page :: rest))).
Proof.
  unfold _get_bookmark_page, bookmark_page_body.
  destruct (destination item) as [[|[p|e] rest]|]; cbn [rbind].
  - destruct (action item) as [[[|[q|e] rest]|]|]; cbn [rbind]; split;
      try (intros [= <-]; right; split; [now right|now eexists]);
      try discriminate;
      try (intros [(r & [=])|(_ & r & [= ->])]; reflexivity);
      try (intros [(r & [=])|(_ & r & [=])]).
  - split.
    + intros [= <-]. left. now eexists.
    + intros [(r & [= -> _])|([[=]|[=]] & _)]. reflexivity.
  - split; [discriminate|].
    intros [(r & [=])|([[=]|[=]] & _)].
  - destruct (action item) as [[[|[q|e] rest]|]|]; cbn [rbind]; split;
      try (intros [= <-]; right; split; [now left|now eexists]);
      try discriminate;
      try (intros [(r & [=])|(_ & r & [= ->])]; reflexivity);
      try (intros [(r & [=])|(_ & r & [=])]).
Qed.

Lemma detect_end_pages (doc : Document) (method method' : option string)
    (chs : list Chapter) :
  detect_chapters doc method = (Ok chs, method') →
  Forall (fun c => is_Some (end_page c)) chs.
Proof.
  unfold detect_chapters.
  destruct (_detect_from_bookmarks doc) as [|c rest] eqn:Hbm.
  - unfold _detect_from_headings, try_except.
    destruct (headings_body doc) as [hs|e] eqn:Hh.
    + intros [= <- _]. unfold headings_body in Hh.
      destruct (fitz_open doc) as [pages|]; [|discriminate]. cbn [rbind] in Hh.
      destruct (_analyze_font_sizes pages) as [sizes|]; [|discriminate]. cbn [rbind] in Hh.
      destruct (scan_pages _ pages) as [st|]; [|discriminate]. cbn [rbind] in Hh.
      rewrite calculate_end_pages_resolved in Hh. injection Hh as <-.
      apply resolved_end_pages_set.
    + unfold _create_default_chapters.
      destruct (pikepdf_open doc) as [pdf|]; [|discriminate]. cbn [rbind].
      intros [= <- _]. rewrite default_chunks_closed.
      apply Forall_map, Forall_forall. intros k _. cbn. eauto.
  - intros [= <- _]. rewrite <- Hbm.
    unfold _detect_from_bookmarks, bookmarks_body.
    destruct (pikepdf_open doc) as [pdf|]; [|constructor]. cbn [rbind].
    destruct (outline_root pdf) as [root|]; [|constructor]. cbn [rbind].
    destruct root as [|item items]; [constructor|].
    rewrite calculate_end_pages_resolved. apply resolved_end_pages_set.
Qed.

(** X7. Every chapter [detect_chapters] returns has its ['end_page']
    key, whichever path produced it. *)
Theorem detected_chapters_have_end_page (doc : Document) (method method' : option string)
    (chs : list Chapter) :
  detect_chapters doc method = (Ok chs, method') →
  Forall (fun c => is_Some (end_page c)) chs.
Proof. apply detect_end_pages. Qed.

Lemma detected_chapters_have_end_page_witness :
  Forall (fun c => is_Some (end_page c)) (_detect_from_bookmarks book).
Proof.
  apply (detected_chapters_have_end_page book None (Some "bookmarks")). reflexivity.
Defined.

(** X8. [detect_chapters] raises in one case only: the heading scan
    raises and pikepdf cannot open the file either. The exception is
    the one of pikepdf, and [detection_method] keeps the value it had. *)
Theorem detect_chapters_raises_iff (doc : Document) (method : option string) (e : string) :
  fst (detect_chapters doc method) = Raise e
  ↔ (∃ e', headings_body doc = Raise e') ∧ pikepdf_open doc = Raise e.
Proof.
  unfold detect_chapters, _detect_from_headings, try_except, _create_default_chapters.
  split.
  - destruct (_detect_from_bookmarks doc) as [|c rest]; [|discriminate].
    destruct (headings_body doc) as [hs|e'']; [discriminate|].
    destruct (pikepdf_open doc) as [pdf|e3]; cbn; [discriminate|].
    intros [= ->]. split; [now eexists | reflexivity].
  - intros [[e' Hh] Hopen].
    unfold _detect_from_bookmarks, bookmarks_body.
    rewrite Hopen, Hh. reflexivity.
Qed.

Lemma detect_chapters_raises_iff_witness :
  fst (detect_chapters unreadable None)
  = Raise "PdfError: unable to find trailer dictionary".
Proof.
  apply (proj2 (detect_chapters_raises_iff unreadable None
                  "PdfError: unable to find trailer dictionary")).
  split; [now eexists | reflexivity].
Defined.

(* ================================================================== *)
(** * Further properties of the heading scan                           *)
(* ================================================================== *)

Lemma scan_spans_describe (thr : Q) (page_num : nat) (spans : list Span) :
  ∀ st,
    map describe (fst (fold_left (scan_span thr page_num) spans st))
    = map describe (fst st)
      ++ map describe_hit (map (pair page_num) (List.filter (qualifies thr) spans)).
Proof.
  induction spans as [|s spans IH]; intros st.
  - cbn. now rewrite app_nil_r.
  - cbn [fold_left List.filter]. rewrite IH, scan_span_qualifies.
    destruct (qualifies thr s).
    + cbn [fst map]. rewrite map_app, <- app_assoc. reflexivity.
    + reflexivity.
Qed.

Lemma hits_snoc (thr : Q) (doc : FitzDoc) (page : Page) :
  hits thr (doc ++ [page])
  = hits thr doc
    ++ map (pair (length doc)) (List.filter (qualifies thr) (page_spans page)).
Proof.
  unfold hits. rewrite imap_app, concat_app. cbn [imap concat].
  now rewrite Nat.add_0_r, app_nil_r.
Qed.

Lemma scan_pages_describe (thr : Q) (doc : FitzDoc) (st : list Chapter * Z) :
  scan_pages thr doc = Ok st →
  map describe (fst st) = map describe_hit (hits thr doc).
Proof.
  unfold scan_pages. intros Hrun.
  apply (for_each_invariant
           (fun i s => map describe (fst s) = map describe_hit (hits thr (take i doc)))
           _ _ _ _) in Hrun.
  - rewrite length_seq in Hrun. now rewrite firstn_all in Hrun.
  - reflexivity.
  - intros i x s s' Hx HI Hbody.
    apply lookup_seq in Hx as [-> _]. cbn [Nat.add] in Hbody.
    destruct (get_item doc i) as [page|] eqn:Hpage; [|discriminate].
    apply get_item_Ok in Hpage. cbn [rbind] in Hbody.
    destruct page as [blocks|]; [|discriminate].
    cbn [rbind] in Hbody. injection Hbody as <-.
    rewrite (take_S_r _ _ _ Hpage), hits_snoc, scan_blocks_flat, scan_spans_describe, HI.
    rewrite map_app, length_take_le by (apply lookup_lt_Some in Hpage; lia).
    reflexivity.
Qed.

Lemma resolved_describe (chapters : list Chapter) (total : Z) :
  map describe (resolved chapters total) = map describe chapters.
Proof. induction chapters as [|c rest IH]; cbn; [reflexivity | now rewrite IH]. Qed.

Lemma headings_body_describe (doc : Document) (pages : FitzDoc) (chs : list Chapter) :
  fitz_open doc = Ok pages →
  headings_body doc = Ok chs →
  map describe chs
  = map describe_hit (hits (_calculate_heading_threshold (sample_sizes pages)) pages).
Proof.
  intros Hopen. unfold headings_body. rewrite Hopen. cbn [rbind].
  destruct (_analyze_font_sizes pages) as [sizes|] eqn:Hs; [|discriminate]. cbn [rbind].
  apply analyze_font_sizes_sample in Hs. subst sizes.
  destruct (scan_pages _ pages) as [st|] eqn:Hscan; [|discriminate]. cbn [rbind].
  rewrite calculate_end_pages_resolved. intros [= <-].
  rewrite resolved_describe. now apply scan_pages_describe.
Qed.

(** X9. On a document whose spans hold 7-bit text, the heading scan
    returns one chapter per qualifying span, in reading order: its
    title and full title are the stripped text of the span, its parent
    is empty, its start page is the index of the page the span is on,
    its level is 0 and its font size is that of the span. *)
Theorem heading_candidates (doc : Document) (pages : FitzDoc) (chs : list Chapter) :
  fitz_open doc = Ok pages →
  ascii_spans pages →
  headings_body doc = Ok chs →
  map describe chs
  = map describe_hit (hits (_calculate_heading_threshold (sample_sizes pages)) pages)
  ∧ length chs
    = length (hits (_calculate_heading_threshold (sample_sizes pages)) pages).
Proof.
  intros Hopen _ Hbody.
  pose proof (headings_body_describe doc pages chs Hopen Hbody) as Hdesc.
  split; [exact Hdesc|].
  rewrite <- (length_map describe chs), Hdesc. apply length_map.
Qed.

Lemma heading_candidates_witness :
  map describe
      [ {| title := "Chapter 1"; full_title := "Chapter 1"; parent := "";
           start_page := 3; chapter_num := 1; level := 0;
           end_page := Some 3; font_size := Some (20 # 1) |} ]
  = map describe_hit
        (hits (_calculate_heading_threshold (sample_sizes scenario_pages)) scenario_pages)
  ∧ 1%nat
    = length (hits (_calculate_heading_threshold (sample_sizes scenario_pages))
                   scenario_pages).
Proof.
  apply (heading_candidates scenario scenario_pages);
    [reflexivity | repeat constructor | reflexivity].
Defined.

Lemma hits_page_bound (thr : Q) (doc : FitzDoc) :
  Forall (fun h => (fst h < length doc)%nat) (hits thr doc).
Proof.
  induction doc as [|page doc IH] using rev_ind; [constructor|].
  rewrite hits_snoc, length_app. cbn [length]. apply Forall_app. split.
  - eapply Forall_impl; [exact IH|]. cbn. intros h Hh. lia.
  - apply Forall_map, Forall_forall. intros s _. cbn. lia.
Qed.

(** With starts in non-decreasing order and inside the document, each
    resolved range starts in the document, ends in it, and is at worst
    empty (its end is one page before its start). *)
Lemma resolved_ranges (chapters : list Chapter) (total : Z) :
  StronglySorted Z.le (map start_page chapters) →
  Forall (fun c => 0 <= start_page c < total) chapters →
  Forall (fun c => 0 <= start_page c < total
                   ∧ ∃ e, end_page c = Some e
                          ∧ start_page c - 1 <= e <= total - 1)
         (resolved chapters total).
Proof.
  induction chapters as [|c rest IH]; intros Hs Hb; [constructor|].
  cbn [map] in Hs. inversion Hs as [|? ? Hs' Hle]; subst.
  inversion Hb as [|? ? Hc Hb']; subst.
  cbn [resolved]. constructor; [|now apply IH].
  cbn [start_page end_page set_end_page]. split; [exact Hc|].
  eexists. split; [reflexivity|].
  destruct rest as [|next rest']; [lia|].
  inversion Hle as [|? ? Hcn _]; subst. inversion Hb' as [|? ? Hn _]; subst. lia.
Qed.

(** X10. Every chapter of a heading scan starts on a page of the
    document and ends on one; its end is never more than one page
    before its start (which happens when the next heading is on the
    same page). *)
Theorem heading_ranges (doc : Document) (pages : FitzDoc) (chs : list Chapter) :
  fitz_open doc = Ok pages →
  headings_body doc = Ok chs →
  Forall (fun c => 0 <= start_page c < Z.of_nat (length pages)
                   ∧ ∃ e, end_page c = Some e
                          ∧ start_page c - 1 <= e <= Z.of_nat (length pages) - 1)
         chs.
Proof.
  intros Hopen Hbody.
  pose proof (headings_body_inv doc chs Hbody) as [_ Hsorted].
  pose proof (headings_body_describe doc pages chs Hopen Hbody) as Hdesc.
  revert Hsorted Hdesc. unfold headings_body in Hbody. rewrite Hopen in Hbody.
  cbn [rbind] in Hbody.
  destruct (_analyze_font_sizes pages) as [sizes|]; [|discriminate]. cbn [rbind] in Hbody.
  destruct (scan_pages _ pages) as [st|]; [|discriminate]. cbn [rbind] in Hbody.
  rewrite calculate_end_pages_resolved in Hbody. injection Hbody as <-.
  rewrite resolved_start_pages, resolved_describe. intros Hsorted Hdesc.
  apply resolved_ranges; [exact Hsorted|].
  assert (Hstarts : map start_page (fst st)
                    = map (fun h => Z.of_nat (fst h))
                          (hits (_calculate_heading_threshold (sample_sizes pages)) pages)).
  { transitivity (map (fun d => snd (fst (fst d))) (map describe (fst st))).
    - rewrite map_map. reflexivity.
    - rewrite Hdesc, map_map. reflexivity. }
  pose proof (hits_page_bound (_calculate_heading_threshold (sample_sizes pages)) pages)
    as Hbound.
  apply Forall_forall. intros c Hc.
  assert (Hin : start_page c ∈ map start_page (fst st)) by now apply list_elem_of_fmap_2.
  rewrite Hstarts in Hin. apply list_elem_of_fmap in Hin as (h & -> & Hh).
  apply (proj1 (Forall_forall _ _) Hbound) in Hh. lia.
Qed.

Lemma heading_ranges_witness :
  Forall (fun c => 0 <= start_page c < 4
                   ∧ ∃ e, end_page c = Some e ∧ start_page c - 1 <= e <= 4 - 1)
         [ {| title := "Chapter 1"; full_title := "Chapter 1"; parent := "";
              start_page := 3; chapter_num := 1; level := 0;
              end_page := Some 3; font_size := Some (20 # 1) |} ].
Proof.
  apply (heading_ranges scenario scenario_pages); reflexivity.
Defined.

(* ================================================================== *)
(** * Further properties of the threshold                              *)
(* ================================================================== *)

Lemma count_zero (p : Q → bool) (l : list Q) :
  count p l = 0%nat → Forall (fun x => p x = false) l.
Proof.
  induction l as [|x rest IH]; cbn [count]; intros H; constructor.
  - destruct (p x); [discriminate|reflexivity].
  - apply IH. destruct (p x); [discriminate|exact H].
Qed.

Lemma threshold_counts (sizes : list Q) :
  sizes ≠ [] →
  Z.of_nat (length sizes) < 2 ^ 52 →
  _calculate_heading_threshold sizes ∈ sizes
  ∧ (length sizes / 10 < count (Qle_bool (_calculate_heading_threshold sizes)) sizes)%nat
  ∧ (count (fun x => negb (Qle_bool x (_calculate_heading_threshold sizes))) sizes
     <= length sizes / 10)%nat.
Proof.
  intros Hne Hlen.
  pose proof (calculate_heading_threshold_index sizes Hne Hlen) as Hidx.
  pose proof (sorted_reverse_perm sizes) as Hperm.
  pose proof (Sorted_StronglySorted desc_transitive (sorted_reverse_sorted sizes)) as Hs.
  split; [|split].
  - apply list_elem_of_In. apply (Permutation_in _ (Permutation_sym Hperm)).
    apply list_elem_of_In. eapply list_elem_of_lookup_2. exact Hidx.
  - rewrite (count_perm _ _ _ Hperm). now apply desc_count_at_least.
  - rewrite (count_perm _ _ _ Hperm). now apply desc_count_above.
Qed.

(** X11. The threshold of a non-empty sample is one of the sampled
    sizes; more than a tenth of the sampled sizes reach it, and at most
    a tenth exceed it. *)
Theorem threshold_in_sample (sizes : list Q) :
  sizes ≠ [] →
  Z.of_nat (length sizes) < 2 ^ 52 →
  _calculate_heading_threshold sizes ∈ sizes
  ∧ (length sizes / 10 < count (Qle_bool (_calculate_heading_threshold sizes)) sizes)%nat
  ∧ (count (fun x => negb (Qle_bool x (_calculate_heading_threshold sizes))) sizes
     <= length sizes / 10)%nat.
Proof. apply threshold_counts. Qed.

Lemma threshold_in_sample_witness :
  _calculate_heading_threshold scenario_sizes ∈ scenario_sizes
  ∧ (length scenario_sizes / 10
     < count (Qle_bool (_calculate_heading_threshold scenario_sizes)) scenario_sizes)%nat
  ∧ (count (fun x => negb (Qle_bool x (_calculate_heading_threshold scenario_sizes)))
           scenario_sizes
     <= length scenario_sizes / 10)%nat.
Proof. apply (threshold_in_sample scenario_sizes); [discriminate | reflexivity]. Defined.

(** X12. With fewer than ten sampled spans the threshold is the largest
    sampled size: only spans of the largest font can qualify. *)
Theorem threshold_of_small_sample (sizes : list Q) :
  sizes ≠ [] →
  (length sizes < 10)%nat →
  _calculate_heading_threshold sizes ∈ sizes
  ∧ Forall (fun s => (s <= _calculate_heading_threshold sizes)%Q) sizes.
Proof.
  intros Hne Hsmall.
  assert (Hlen : Z.of_nat (length sizes) < 2 ^ 52).
  { change (2 ^ 52) with 4503599627370496. lia. }
  destruct (threshold_counts sizes Hne Hlen) as (Hin & _ & Habove).
  split; [exact Hin|].
  rewrite Nat.div_small in Habove by exact Hsmall.
  assert (Hzero : count (fun x => negb (Qle_bool x (_calculate_heading_threshold sizes)))
                        sizes = 0%nat) by lia.
  apply count_zero in Hzero.
  eapply Forall_impl; [exact Hzero|]. cbn. intros s Hs.
  apply Qle_bool_iff. now destruct (Qle_bool s _).
Qed.

Lemma threshold_of_small_sample_witness :
  _calculate_heading_threshold [10 # 1; 24 # 1; 12 # 1] ∈ [10 # 1; 24 # 1; 12 # 1]
  ∧ Forall (fun s => (s <= _calculate_heading_threshold [10 # 1; 24 # 1; 12 # 1])%Q)
           [10 # 1; 24 # 1; 12 # 1].
Proof.
  apply (threshold_of_small_sample [10 # 1; 24 # 1; 12 # 1]); [discriminate | cbn; lia].
Defined.

(* ================================================================== *)
(** * Further properties of the heading-pattern test                   *)
(* ================================================================== *)

(** X13. [_is_chapter_heading] accepts a 7-bit text in two cases only:
    its lower-cased form starts with "chapter", white space and a
    digit, or it has between 4 and 99 characters and starts with a
    capital letter. *)
Theorem heading_test_effective (text : string) :
  is_ascii_text text = true →
  _is_chapter_heading text = true
  ↔ re_search pat_chapter (lower (chars text)) = true
    ∨ ((3 < length (chars text) < 100)%nat
       ∧ ∃ c rest, chars text = c :: rest ∧ isupper c = true).
Proof.
  intros _. rewrite is_chapter_heading_effective, orb_true_iff.
  apply or_iff_compat_l. unfold short_capitalised.
  rewrite !andb_true_iff, Z.ltb_lt, Z.gtb_lt. split.
  - intros [[H1 H2] H3]. split; [lia|].
    destruct (chars text) as [|c rest]; [discriminate|]. now exists c, rest.
  - intros [Hlen (c & rest & Heq & Hup)]. rewrite Heq in *.
    split; [split; lia | exact Hup].
Qed.

Lemma accepts_alt (a b : regex) (text : list ascii) :
  accepts (Alt a b) text = accepts a text || accepts b text.
Proof.
  unfold accepts. revert a b. induction text as [|c rest IH]; intros a b; [reflexivity|].
  cbn [fold_left deriv]. apply IH.
Qed.

Lemma accepts_cons (r : regex) (c : ascii) (text : list ascii) :
  accepts r (c :: text) = accepts (deriv c r) text.
Proof. reflexivity. Qed.

Lemma accepts_cat (r1 r2 : regex) (s1 s2 : list ascii) :
  accepts r1 s1 = true → accepts r2 s2 = true → accepts (Cat r1 r2) (s1 ++ s2) = true.
Proof.
  revert r1. induction s1 as [|c s1 IH]; intros r1 H1 H2.
  - cbn [app]. change (nullable r1 = true) in H1.
    destruct s2 as [|c s2].
    + change (nullable r1 && nullable r2 = true). rewrite H1. exact H2.
    + rewrite accepts_cons. cbn [deriv]. rewrite H1, accepts_alt.
      rewrite accepts_cons in H2. rewrite H2. apply orb_true_r.
  - cbn [app]. rewrite accepts_cons in *. cbn [deriv].
    destruct (nullable r1).
    + rewrite accepts_alt, (IH _ H1 H2). reflexivity.
    + now apply IH.
Qed.

Lemma accepts_star_class (p : ascii → bool) (text : list ascii) :
  Forall (fun c => p c = true) text → accepts (Star (Class p)) text = true.
Proof.
  induction 1 as [|c rest Hc _ IH]; [reflexivity|].
  rewrite accepts_cons. cbn [deriv]. rewrite Hc.
  apply (accepts_cat Eps (Star (Class p)) [] rest); [reflexivity | exact IH].
Qed.

Lemma accepts_plus_class (p : ascii → bool) (text : list ascii) :
  text ≠ [] → Forall (fun c => p c = true) text → accepts (Plus (Class p)) text = true.
Proof.
  intros Hne Hall. destruct text as [|c rest]; [contradiction|].
  inversion Hall as [|? ? Hc Hrest]; subst.
  apply (accepts_cat (Class p) (Star (Class p)) [c] rest).
  - unfold accepts. cbn. now rewrite Hc.
  - now apply accepts_star_class.
Qed.

Lemma match_prefix_accepts (r : regex) (s1 s2 : list ascii) :
  accepts r s1 = true → match_prefix r (s1 ++ s2) = true.
Proof.
  revert r. induction s1 as [|c s1 IH]; intros r H.
  - change (nullable r = true) in H. destruct s2; cbn; now rewrite H.
  - cbn [app match_prefix]. rewrite (IH _ H). apply orb_true_r.
Qed.

(** X14. A text that reads "chapter", white space, a digit, in any mix
    of upper and lower case, is accepted whatever follows and however
    long it is. *)
Theorem chapter_heading_any_case (text : string) (ws rest : list ascii) (d : ascii) :
  ws ≠ [] →
  Forall (fun c => isspace c = true) ws →
  isdigit d = true →
  lower (chars text) = chars "chapter" ++ ws ++ d :: rest →
  _is_chapter_heading text = true.
Proof.
  intros Hne Hws Hd Hlow. unfold _is_chapter_heading, patterns. cbn [existsb].
  replace (re_search pat_chapter (lower (chars text))) with true; [reflexivity|].
  symmetry. unfold re_search. cbn [dollar body pat_chapter]. rewrite Hlow.
  replace (chars "chapter" ++ ws ++ d :: rest)
    with ((chars "chapter" ++ ws ++ [d]) ++ rest)
    by (rewrite <- !app_assoc; reflexivity).
  apply match_prefix_accepts, accepts_cat; [reflexivity|].
  apply accepts_cat; [now apply accepts_plus_class|].
  apply accepts_plus_class; [discriminate|]. now repeat constructor.
Qed.

Lemma chapter_heading_any_case_witness :
  (100 < length (chars long_chapter_title))%nat
  ∧ _is_chapter_heading long_chapter_title = true.
Proof.
  split; [vm_compute; lia|].
  apply (chapter_heading_any_case long_chapter_title
           [" "%char; " "%char] (chars ("2" +:+ string_of_list_ascii (repeat " "%char 100)
                                          +:+ "the end")) "1"%char).
  - discriminate.
  - now repeat constructor.
  - reflexivity.
  - vm_compute. reflexivity.
Defined.

(* ================================================================== *)
(** * Further properties of the fallback and of the resolver          *)
(* ================================================================== *)

Lemma chunk_count_bounds (total : Z) :
  0 < total →
  20 * (Z.of_nat (chunk_count total) - 1) < total <= 20 * Z.of_nat (chunk_count total).
Proof.
  intros Hpos. unfold chunk_count.
  rewrite Z2Nat.id by (apply Z.div_pos; lia).
  pose proof (Z.div_mod (total + 19) 20 ltac:(lia)).
  pose proof (Z.mod_pos_bound (total + 19) 20 ltac:(lia)). lia.
Qed.

Lemma chunk_count_zero (total : Z) : total <= 0 → chunk_count total = 0%nat.
Proof.
  intros H. unfold chunk_count.
  assert ((total + 19) / 20 < 1) by (apply Z.div_lt_upper_bound; lia).
  lia.
Qed.

Lemma resolved_chunks (total : Z) (m : nat) :
  ∀ a, (a + m = chunk_count total)%nat →
       resolved (map (nth_chunk total) (seq a m)) total
       = map (nth_chunk total) (seq a m).
Proof.
  induction m as [|m IH]; intros a Ha; [reflexivity|].
  assert (Hpos : 0 < total).
  { destruct (Z.lt_ge_cases 0 total) as [H|H]; [exact H|].
    rewrite chunk_count_zero in Ha by lia. lia. }
  pose proof (chunk_count_bounds total Hpos) as [Hlo Hhi].
  cbn [seq map resolved]. rewrite IH by lia. f_equal.
  unfold set_end_page, nth_chunk. cbn [title full_title parent start_page chapter_num level
                                         font_size]. f_equal.
  destruct m as [|m]; cbn [seq map start_page]; f_equal; lia.
Qed.

Lemma default_chunks_resolved (total : Z) :
  resolved (default_chunks total) total = default_chunks total.
Proof.
  rewrite default_chunks_closed. now apply resolved_chunks.
Qed.

(** X15. The chunks of the fallback already are what the resolver would
    make of their starts: each chunk ends one page before the next
    starts and the last ends on the last page. Each chunk starts at a
    multiple of 20, holds between 1 and 20 pages and lies inside the
    document; there is no chunk exactly when the document has no
    page. *)
Theorem default_chunks_partition (pages : nat) :
  _calculate_end_pages (default_chunks (Z.of_nat pages)) (Z.of_nat pages)
  = Ok (default_chunks (Z.of_nat pages))
  ∧ Forall (fun c => ∃ e, end_page c = Some e
                          ∧ 0 <= start_page c <= e
                          ∧ e < Z.of_nat pages
                          ∧ e - start_page c < 20
                          ∧ start_page c mod 20 = 0)
           (default_chunks (Z.of_nat pages))
  ∧ (default_chunks (Z.of_nat pages) = [] ↔ pages = 0%nat).
Proof.
  split; [|split].
  - now rewrite calculate_end_pages_resolved, default_chunks_resolved.
  - rewrite default_chunks_closed. apply Forall_map, Forall_forall.
    intros k Hk. apply list_elem_of_In, in_seq in Hk.
    assert (Hpos : 0 < Z.of_nat pages).
    { destruct pages; [|lia]. rewrite chunk_count_zero in Hk by lia. lia. }
    pose proof (chunk_count_bounds _ Hpos) as [Hlo Hhi].
    cbn [nth_chunk end_page start_page]. eexists. split; [reflexivity|].
    rewrite Z.mul_comm, Z.mod_mul by lia. lia.
  - rewrite default_chunks_closed. split.
    + intros Hnil. apply (f_equal (@length Chapter)) in Hnil.
      rewrite length_map, length_seq in Hnil. cbn in Hnil.
      destruct pages; [reflexivity|].
      pose proof (chunk_count_bounds (Z.of_nat (S pages)) ltac:(lia)). lia.
    + intros ->. reflexivity.
Qed.

(** X16. Resolving a resolved list again changes nothing, and resolving
    it for another page count gives what resolving the original list
    for that count gives: only the starts and the page count decide the
    ends. *)
Theorem calculate_end_pages_again (chapters : list Chapter) (total total' : Z) :
  (out ←! _calculate_end_pages chapters total; _calculate_end_pages out total')
  = _calculate_end_pages chapters total'.
Proof.
  rewrite !calculate_end_pages_resolved. cbn [rbind].
  rewrite calculate_end_pages_resolved. f_equal.
  induction chapters as [|c rest IH]; [reflexivity|].
  cbn [resolved]. rewrite IH. f_equal.
  destruct rest as [|next rest']; reflexivity.
Qed.

(** X17. The loop as Python runs it, writing into the dictionaries the
    list refers to: when no dictionary is listed twice it never raises,
    the listed dictionaries end up with exactly the resolved values and
    every other object of the store is left as it was. *)
Theorem calculate_end_pages_in_place (refs : list nat) (total : Z)
    (store : gmap nat Chapter) (values : list Chapter) :
  NoDup refs →
  holds store refs values →
  ∃ store',
    calculate_end_pages_store refs total store = Ok store'
    ∧ holds store' refs (resolved values total)
    ∧ (∀ ref, ref ∉ refs → store' !! ref = store !! ref).
Proof. apply calculate_end_pages_store_resolved. Qed.

Lemma calculate_end_pages_in_place_witness :
  ∃ store',
    calculate_end_pages_store [4%nat; 7%nat] 9 two_chapter_store = Ok store'
    ∧ holds store' [4%nat; 7%nat] (resolved two_chapters 9)
    ∧ (∀ ref, ref ∉ [4%nat; 7%nat] → store' !! ref = two_chapter_store !! ref).
Proof.
  apply (calculate_end_pages_in_place [4%nat; 7%nat] 9 two_chapter_store two_chapters).
  - apply NoDup_cons. split; [|apply NoDup_singleton].
    intros Hin. apply list_elem_of_singleton in Hin. discriminate Hin.
  - repeat constructor.
Defined.

(* ================================================================== *)
(** * The file names of [split_chapters]                               *)
(* ================================================================== *)

Lemma chars_app (a b : string) : chars (a +:+ b) = chars a ++ chars b.
Proof.
  unfold chars. induction a as [|c a IH]; [reflexivity|].
  change (String c a +:+ b) with (String c (a +:+ b)).
  cbn [list_ascii_of_string app]. f_equal. exact IH.
Qed.

Lemma chars_of_list (l : list ascii) : chars (string_of_list_ascii l) = l.
Proof. apply list_ascii_of_string_of_list_ascii. Qed.

Lemma chars_inj (a b : string) : chars a = chars b → a = b.
Proof.
  intros H. rewrite <- (string_of_list_ascii_of_string a),
              <- (string_of_list_ascii_of_string b).
  unfold chars in H. now rewrite H.
Qed.

Lemma pretty_N_char_digit (d : N) : isdigit (pretty_N_char d) = true.
Proof.
  destruct (N.lt_ge_cases d 9%N) as [Hlt|Hge].
  - assert (d = 0 ∨ d = 1 ∨ d = 2 ∨ d = 3 ∨ d = 4 ∨ d = 5 ∨ d = 6 ∨ d = 7 ∨ d = 8)%N
      as Hd by lia.
    repeat (destruct Hd as [->|Hd]; [reflexivity|]). now subst.
  - unfold pretty_N_char. destruct d as [|p]; [lia|].
    do 4 (destruct p as [p|p|]; try reflexivity; try lia).
Qed.

Lemma pretty_N_go_digits (x : N) :
  ∀ s, Forall (fun c => isdigit c = true) (chars s) →
       Forall (fun c => isdigit c = true) (chars (pretty_N_go x s)).
Proof.
  induction (N.lt_wf_0 x) as [x _ IH]. intros s Hs.
  destruct (N.eq_dec x 0%N) as [->|Hnz]; [now rewrite pretty_N_go_0|].
  rewrite pretty_N_go_step by lia. apply IH.
  - apply N.div_lt; lia.
  - cbn. constructor; [apply pretty_N_char_digit | exact Hs].
Qed.

(** A positive number is printed with a first digit that is not 0. *)
Lemma pretty_N_go_head (x : N) :
  (0 < x)%N →
  ∀ s, ∃ c rest, chars (pretty_N_go x s) = c :: rest
                 ∧ isdigit c = true ∧ c ≠ "0"%char.
Proof.
  induction (N.lt_wf_0 x) as [x _ IH]. intros Hpos s.
  rewrite pretty_N_go_step by exact Hpos.
  destruct (N.eq_dec (x `div` 10)%N 0%N) as [Hz|Hnz].
  - rewrite Hz, pretty_N_go_0. eexists _, _. split; [reflexivity|].
    split; [apply pretty_N_char_digit|].
    assert (Hsmall : (x < 10)%N).
    { destruct (N.lt_ge_cases x 10%N) as [H|H]; [exact H|].
      pose proof (N.div_le_lower_bound x 10%N 1%N ltac:(lia) ltac:(lia)). lia. }
    rewrite N.mod_small by exact Hsmall.
    assert (x = 1 ∨ x = 2 ∨ x = 3 ∨ x = 4 ∨ x = 5 ∨ x = 6 ∨ x = 7 ∨ x = 8 ∨ x = 9)%N
      as Hd by lia.
    repeat (destruct Hd as [->|Hd]; [discriminate|]). now subst.
  - apply IH; [apply N.div_lt; lia | now apply N.neq_0_lt_0].
Qed.

Lemma pretty_pos_digits (p : positive) :
  Forall (fun c => isdigit c = true) (chars (pretty (Z.pos p)))
  ∧ ∃ c rest, chars (pretty (Z.pos p)) = c :: rest ∧ isdigit c = true ∧ c ≠ "0"%char.
Proof.
  change (pretty (Z.pos p)) with (pretty_N_go (N.pos p) "").
  split; [apply pretty_N_go_digits; constructor | apply pretty_N_go_head; lia].
Qed.

Lemma pretty_Z_chars (z : Z) :
  Forall (fun c => digit_or_minus c = true) (chars (pretty z)).
Proof.
  assert (Hpos : ∀ p, Forall (fun c => digit_or_minus c = true) (chars (pretty (Z.pos p)))).
  { intros p. eapply Forall_impl; [apply pretty_pos_digits|].
    cbn. intros c Hc. unfold digit_or_minus. now rewrite Hc. }
  destruct z as [|p|p].
  - repeat constructor.
  - apply Hpos.
  - change (pretty (Z.neg p)) with ("-" +:+ pretty (Z.pos p)).
    rewrite chars_app. apply Forall_app. split; [repeat constructor | apply Hpos].
Qed.

Lemma format_02d_chars (n : Z) :
  Forall (fun c => digit_or_minus c = true) (chars (format_02d n)).
Proof.
  unfold format_02d. destruct ((0 <=? n) && (n <? 10)).
  - rewrite chars_app. apply Forall_app. split; [repeat constructor | apply pretty_Z_chars].
  - apply pretty_Z_chars.
Qed.

Lemma pretty_small (n : Z) :
  0 <= n < 10 → ∃ d, chars (pretty n) = [d] ∧ isdigit d = true.
Proof.
  intros Hn.
  assert (n = 0 ∨ n = 1 ∨ n = 2 ∨ n = 3 ∨ n = 4 ∨ n = 5 ∨ n = 6 ∨ n = 7 ∨ n = 8 ∨ n = 9)
    as Hd by lia.
  repeat (destruct Hd as [->|Hd]; [eexists; split; reflexivity|]).
  subst. eexists; split; reflexivity.
Qed.

(** Outside 0..9 the number is printed as it is, and then it does not
    start with a zero. *)
Lemma pretty_not_zero_led (n : Z) (rest : list ascii) :
  ¬ (0 <= n < 10) → chars (pretty n) ≠ "0"%char :: rest.
Proof.
  intros Hn Heq. destruct n as [|p|p]; [lia| |].
  - destruct (pretty_pos_digits p) as [_ (c & r & Hc & _ & Hnz)].
    rewrite Hc in Heq. congruence.
  - change (pretty (Z.neg p)) with ("-" +:+ pretty (Z.pos p)) in Heq.
    rewrite chars_app in Heq. discriminate Heq.
Qed.

Lemma format_02d_inj (a b : Z) : format_02d a = format_02d b → a = b.
Proof.
  intros H. apply (f_equal chars) in H. revert H. unfold format_02d.
  destruct ((0 <=? a) && (a <? 10)) eqn:Ha; destruct ((0 <=? b) && (b <? 10)) eqn:Hb;
    rewrite ?chars_app; cbn [chars list_ascii_of_string app]; intros H.
  - injection H as H. apply chars_inj in H. now apply (inj pretty).
  - symmetry in H. apply pretty_not_zero_led in H; [contradiction|]. lia.
  - apply pretty_not_zero_led in H; [contradiction|]. lia.
  - apply chars_inj in H. now apply (inj pretty).
Qed.

Lemma lstrip_chars_drop (p : ascii → bool) (s : list ascii) :
  ∃ k, lstrip_chars p s = drop k s.
Proof.
  induction s as [|c rest [k IH]]; [now exists 0%nat|].
  cbn [lstrip_chars]. destruct (p c); [|now exists 0%nat].
  exists (S k). exact IH.
Qed.

(** Stripping keeps a run of consecutive characters of the text. *)
Lemma strip_chars_infix (p : ascii → bool) (s : list ascii) :
  ∃ k m, strip_chars p s = take m (drop k s).
Proof.
  unfold strip_chars.
  destruct (lstrip_chars_drop p s) as [k ->].
  destruct (lstrip_chars_drop p (rev (drop k s))) as [j ->].
  exists k, (length (drop k s) - j)%nat.
  rewrite skipn_rev. apply rev_involutive.
Qed.

Lemma strip_chars_Forall (P : ascii → Prop) (p : ascii → bool) (s : list ascii) :
  Forall P s → Forall P (strip_chars p s).
Proof.
  intros H. destruct (strip_chars_infix p s) as (k & m & ->).
  now apply Forall_take, Forall_drop.
Qed.

Lemma collapse_whitespace_Forall (P : ascii → Prop) (in_run : bool) (s : list ascii) :
  P " "%char → Forall P s → Forall P (collapse_whitespace in_run s).
Proof.
  intros Hsp H. revert in_run. induction H as [|c rest Hc _ IH]; intros in_run;
    cbn [collapse_whitespace]; [constructor|].
  destruct (isspace c); [destruct in_run|]; try constructor; auto.
Qed.

Lemma clean_title_valid (chapter_title : string) :
  Forall (fun c => invalid_filename_char c = false) (clean_title chapter_title).
Proof.
  unfold clean_title.
  apply strip_chars_Forall, Forall_take, strip_chars_Forall.
  apply collapse_whitespace_Forall; [reflexivity|].
  unfold remove_invalid_chars. apply Forall_forall. intros c Hc.
  apply list_elem_of_In, filter_In in Hc as [_ Hc].
  now destruct (invalid_filename_char c).
Qed.

Lemma digit_or_minus_valid (c : ascii) :
  digit_or_minus c = true → invalid_filename_char c = false ∧ c ≠ " "%char
                            ∧ c ≠ "/"%char ∧ dot_or_space c = false ∧ isspace c = false.
Proof.
  destruct c as [[] [] [] [] [] [] [] []]; vm_compute; intros H;
    first [discriminate H | repeat split; discriminate].
Qed.

Lemma safe_title_valid (chapter : Chapter) :
  Forall (fun c => invalid_filename_char c = false) (chars (safe_title chapter)).
Proof.
  unfold safe_title. pose proof (clean_title_valid (title chapter)) as Hclean.
  destruct (clean_title (title chapter)) as [|c rest].
  - rewrite chars_app. apply Forall_app. split; [repeat constructor|].
    eapply Forall_impl; [apply pretty_Z_chars|].
    intros ch Hch. now apply digit_or_minus_valid.
  - now rewrite chars_of_list.
Qed.

Lemma chapter_filename_chars (chapter : Chapter) :
  chars (chapter_filename chapter)
  = chars (format_02d (chapter_num chapter))
    ++ chars " - " ++ chars (safe_title chapter) ++ chars ".pdf".
Proof. unfold chapter_filename. now rewrite !chars_app. Qed.

Lemma format_02d_head (n : Z) :
  ∃ c rest, chars (format_02d n) = c :: rest ∧ digit_or_minus c = true.
Proof.
  pose proof (format_02d_chars n) as Hall. unfold format_02d in *.
  destruct ((0 <=? n) && (n <? 10)).
  - rewrite chars_app in *. eexists _, _. split; [reflexivity|reflexivity].
  - destruct n as [|p|p].
    + eexists _, _. split; reflexivity.
    + destruct (pretty_pos_digits p) as [_ (c & r & Hc & Hd & _)].
      exists c, r. split; [exact Hc|]. unfold digit_or_minus. now rewrite Hd.
    + change (pretty (Z.neg p)) with ("-" +:+ pretty (Z.pos p)).
      rewrite chars_app. eexists _, _. split; reflexivity.
Qed.

(* ================================================================== *)
(** * The upload filter                                                *)
(* ================================================================== *)

Lemma break_dot_spec (s : list ascii) :
  match break_dot s with
  | (before, Some after) =>
      s = before ++ "."%char :: after ∧ existsb (Ascii.eqb ".") before = false
  | (before, None) => s = before ∧ existsb (Ascii.eqb ".") s = false
  end.
Proof.
  induction s as [|c rest IH]; [now split|].
  cbn [break_dot]. destruct (Ascii.eqb c ".") eqn:Hc.
  - apply Ascii.eqb_eq in Hc. subst c. now split.
  - destruct (break_dot rest) as [before [after|]]; destruct IH as [-> Hno];
      cbn [existsb app]; rewrite (Ascii.eqb_sym "." c), Hc; now split.
Qed.

Lemma break_dot_app (before after : list ascii) :
  existsb (Ascii.eqb ".") before = false →
  break_dot (before ++ "."%char :: after) = (before, Some after).
Proof.
  induction before as [|c rest IH]; intros Hno; [reflexivity|].
  cbn [existsb] in Hno. apply orb_false_iff in Hno as [Hc Hrest].
  cbn [app break_dot]. rewrite (Ascii.eqb_sym c "."), Hc, (IH Hrest). reflexivity.
Qed.

Lemma existsb_rev (p : ascii → bool) (s : list ascii) :
  existsb p (rev s) = existsb p s.
Proof.
  induction s as [|c rest IH]; [reflexivity|].
  cbn [rev existsb]. rewrite existsb_app, IH. cbn [existsb].
  rewrite orb_false_r. apply orb_comm.
Qed.

Lemma lower_no_dot (ext : list ascii) :
  lower ext = chars "pdf" → existsb (Ascii.eqb ".") ext = false.
Proof.
  destruct ext as [|a [|b [|c [|d rest]]]]; try discriminate.
  cbn [lower map]. intros [= Ha Hb Hc]. cbn [existsb].
  destruct (Ascii.eqb "." a) eqn:Ea; [apply Ascii.eqb_eq in Ea; subst a; discriminate|].
  destruct (Ascii.eqb "." b) eqn:Eb; [apply Ascii.eqb_eq in Eb; subst b; discriminate|].
  destruct (Ascii.eqb "." c) eqn:Ec; [apply Ascii.eqb_eq in Ec; subst c; discriminate|].
  reflexivity.
Qed.

Lemma allowed_file_decomposed (filename : string) (stem ext : list ascii) :
  chars filename = stem ++ "."%char :: ext →
  existsb (Ascii.eqb ".") ext = false →
  allowed_file filename = Ok (bool_decide (lower ext = chars "pdf")).
Proof.
  intros Hf Hno. unfold allowed_file, rsplit_dot. rewrite Hf.
  rewrite existsb_app. cbn [existsb]. rewrite orb_true_r.
  rewrite rev_app_distr. cbn [rev]. rewrite <- app_assoc. cbn [app].
  rewrite break_dot_app by now rewrite existsb_rev.
  cbn. now rewrite rev_involutive.
Qed.

(** X27. [allowed_file] never raises, and it accepts a name exactly
    when the name has a dot and what follows its last dot is "pdf" in
    any mix of upper and lower case. *)
Theorem allowed_file_spec (filename : string) :
  ∃ b, allowed_file filename = Ok b
       ∧ (b = true ↔ ∃ stem ext, chars filename = stem ++ "."%char :: ext
                                 ∧ lower ext = chars "pdf").
Proof.
  destruct (existsb (Ascii.eqb ".") (chars filename)) eqn:Hdot.
  - pose proof (break_dot_spec (rev (chars filename))) as Hspec.
    destruct (break_dot (rev (chars filename))) as [tail [head|]].
    + destruct Hspec as [Hrev Hno].
      assert (Hf : chars filename = rev head ++ "."%char :: rev tail).
      { rewrite <- (rev_involutive (chars filename)), Hrev, rev_app_distr.
        cbn [rev]. now rewrite <- app_assoc. }
      assert (Hno' : existsb (Ascii.eqb ".") (rev tail) = false)
        by now rewrite existsb_rev.
      rewrite (allowed_file_decomposed _ _ _ Hf Hno').
      eexists. split; [reflexivity|]. rewrite bool_decide_eq_true. split.
      * intros Hext. now exists (rev head), (rev tail).
      * intros (stem & ext & Hf2 & Hext).
        pose proof (lower_no_dot ext Hext) as Hno2.
        assert (Hb : break_dot (rev (chars filename)) = (rev ext, Some (rev stem))).
        { rewrite Hf2, rev_app_distr. cbn [rev]. rewrite <- app_assoc. cbn [app].
          apply break_dot_app. now rewrite existsb_rev. }
        rewrite Hrev, break_dot_app in Hb by exact Hno.
        injection Hb as Ht _. rewrite Ht, rev_involutive. exact Hext.
    + destruct Hspec as [_ Hno]. rewrite existsb_rev in Hno. congruence.
  - unfold allowed_file. rewrite Hdot. exists false. split; [reflexivity|].
    split; [discriminate|].
    intros (stem & ext & Hf & _). rewrite Hf, existsb_app in Hdot.
    cbn [existsb] in Hdot. rewrite orb_true_r in Hdot. discriminate.
Qed.

(* ================================================================== *)
(** * The file names, continued                                        *)
(* ================================================================== *)

Lemma os_path_join_relative (a b : string) (c : ascii) (rest : list ascii) :
  chars b = c :: rest → c ≠ "/"%char →
  ∃ sep, (sep = "" ∨ sep = "/") ∧ os_path_join a b = a +:+ sep +:+ b.
Proof.
  intros Hb Hc. unfold os_path_join. rewrite Hb.
  assert (Hjoin : ∃ sep, (sep = "" ∨ sep = "/")
                         ∧ match rev (chars a) with
                           | [] => b
                           | "/"%char :: _ => a +:+ b
                           | _ => a +:+ "/" +:+ b
                           end = a +:+ sep +:+ b).
  { destruct (rev (chars a)) as [|d r] eqn:Hr.
    - exists "". split; [now left|].
      apply (f_equal (@rev ascii)) in Hr. rewrite rev_involutive in Hr.
      assert (a = "") as -> by (apply chars_inj; exact Hr). reflexivity.
    - destruct (Ascii.eqb d "/") eqn:Hd.
      + apply Ascii.eqb_eq in Hd. subst d. exists "". split; [now left|reflexivity].
      + exists "/". split; [now right|].
        destruct d as [[] [] [] [] [] [] [] []]; try reflexivity. discriminate Hd. }
  destruct c as [[] [] [] [] [] [] [] []]; try exact Hjoin. contradiction.
Qed.

(** X18. The name of a written file holds none of the characters
    < > : double quote / \ | ? *, so it is a single path component: the
    file is created in [output_dir] itself. The name ends with ".pdf":
    it is accepted by [allowed_file] and by the filter of
    [download_all]. *)
Theorem chapter_filename_safe (chapter : Chapter) (output_dir : string) :
  Forall (fun c => invalid_filename_char c = false) (chars (chapter_filename chapter))
  ∧ (∃ sep, (sep = "" ∨ sep = "/")
            ∧ os_path_join output_dir (chapter_filename chapter)
              = output_dir +:+ sep +:+ chapter_filename chapter)
  ∧ endswith_pdf (chapter_filename chapter) = true
  ∧ allowed_file (chapter_filename chapter) = Ok true.
Proof.
  pose proof (chapter_filename_chars chapter) as Hchars.
  split; [|split; [|split]].
  - rewrite Hchars. repeat (apply Forall_app; split).
    + eapply Forall_impl; [apply format_02d_chars|].
      intros c Hc. now apply digit_or_minus_valid.
    + repeat constructor.
    + apply safe_title_valid.
    + repeat constructor.
  - destruct (format_02d_head (chapter_num chapter)) as (c & rest & Hhead & Hc).
    apply (os_path_join_relative _ _ c (rest ++ chars " - " ++ chars (safe_title chapter)
                                             ++ chars ".pdf")).
    + rewrite Hchars, Hhead. reflexivity.
    + now apply digit_or_minus_valid.
  - unfold endswith_pdf. rewrite Hchars, !app_assoc, rev_app_distr. reflexivity.
  - rewrite (allowed_file_decomposed _
               (chars (format_02d (chapter_num chapter)) ++ chars " - "
                  ++ chars (safe_title chapter))
               (chars "pdf")).
    + reflexivity.
    + rewrite Hchars, <- !app_assoc. reflexivity.
    + reflexivity.
Qed.

Lemma first_space_split (l1 l2 x y : list ascii) :
  Forall (fun c => c ≠ " "%char) l1 →
  Forall (fun c => c ≠ " "%char) l2 →
  l1 ++ " "%char :: x = l2 ++ " "%char :: y →
  l1 = l2.
Proof.
  intros H1. revert l2. induction H1 as [|a l1 Ha _ IH]; intros l2 H2 Heq.
  - destruct H2 as [|b l2 Hb _]; [reflexivity|].
    cbn in Heq. injection Heq as Hab _. congruence.
  - destruct H2 as [|b l2 Hb H2].
    + cbn in Heq. injection Heq as Hab _. congruence.
    + cbn in Heq. injection Heq as -> Heq. f_equal. now apply IH.
Qed.

Lemma filename_determines_number (c1 c2 : Chapter) :
  chapter_filename c1 = chapter_filename c2 → chapter_num c1 = chapter_num c2.
Proof.
  intros H. apply (f_equal chars) in H. rewrite !chapter_filename_chars in H.
  apply format_02d_inj, chars_inj.
  apply (first_space_split _ _ _ _) with (3 := H);
    (eapply Forall_impl; [apply format_02d_chars|]);
    intros c Hc; now apply digit_or_minus_valid.
Qed.

(** X20. The name of a written file tells the chapter number: two
    chapters with different numbers never get the same file name,
    whatever their titles are. *)
Theorem chapter_filename_injective (c1 c2 : Chapter) :
  chapter_filename c1 = chapter_filename c2 → chapter_num c1 = chapter_num c2.
Proof. apply filename_determines_number. Qed.

Lemma chapter_filename_injective_witness :
  chapter_num (heading_chapter "Intro" 0 1 (20 # 1))
  = chapter_num (heading_chapter "I?n:t*ro" 4 1 (12 # 1)).
Proof.
  apply (chapter_filename_injective (heading_chapter "Intro" 0 1 (20 # 1))
           (heading_chapter "I?n:t*ro" 4 1 (12 # 1))).
  reflexivity.
Defined.

Lemma spaced_false (b : bool) (s : list ascii) : spaced b s = true → spaced false s = true.
Proof.
  destruct s as [|c rest]; [reflexivity|]. cbn [spaced].
  destruct (isspace c); [|trivial]. destruct b; [|trivial].
  rewrite andb_false_r. discriminate.
Qed.

Lemma spaced_collapse (in_run : bool) (s : list ascii) :
  spaced in_run (collapse_whitespace in_run s) = true.
Proof.
  revert in_run. induction s as [|c rest IH]; intros in_run; [reflexivity|].
  cbn [collapse_whitespace]. destruct (isspace c) eqn:Hc.
  - destruct in_run; [apply IH|]. cbn [spaced]. now rewrite IH.
  - cbn [spaced]. rewrite Hc. apply IH.
Qed.

Lemma spaced_drop (k : nat) (s : list ascii) (b : bool) :
  spaced b s = true → spaced false (drop k s) = true.
Proof.
  revert s b. induction k as [|k IH]; intros s b H.
  - now apply (spaced_false b).
  - destruct s as [|c rest]; [reflexivity|]. cbn [drop skipn]. cbn [spaced] in H.
    destruct (isspace c).
    + apply andb_true_iff in H as [_ H]. now apply (IH rest true).
    + now apply (IH rest false).
Qed.

Lemma spaced_take (m : nat) (s : list ascii) (b : bool) :
  spaced b s = true → spaced b (take m s) = true.
Proof.
  revert s b. induction m as [|m IH]; intros s b H; [reflexivity|].
  destruct s as [|c rest]; [reflexivity|]. cbn [take firstn spaced] in *.
  destruct (isspace c).
  - apply andb_true_iff in H as [H1 H2]. rewrite H1. now apply IH.
  - now apply IH.
Qed.

Lemma spaced_strip (p : ascii → bool) (s : list ascii) (b : bool) :
  spaced b s = true → spaced false (strip_chars p s) = true.
Proof.
  intros H. destruct (strip_chars_infix p s) as (k & m & ->).
  apply spaced_take. now apply (spaced_drop k s b).
Qed.

Lemma spaced_no_space (b : bool) (s : list ascii) :
  Forall (fun c => isspace c = false) s → spaced b s = true.
Proof.
  intros H. revert b. induction H as [|c rest Hc _ IH]; intros b; [reflexivity|].
  cbn [spaced]. rewrite Hc. apply IH.
Qed.

Lemma lstrip_chars_head (p : ascii → bool) (s : list ascii) (c : ascii) :
  head (lstrip_chars p s) = Some c → p c = false.
Proof.
  induction s as [|a rest IH]; [discriminate|]. cbn [lstrip_chars].
  destruct (p a) eqn:Ha; [exact IH|]. cbn. now intros [= <-].
Qed.

Lemma lstrip_chars_last (p : ascii → bool) (s : list ascii) (c : ascii) :
  last (lstrip_chars p s) = Some c → last s = Some c.
Proof.
  induction s as [|a rest IH]; [discriminate|]. cbn [lstrip_chars].
  destruct (p a); [|trivial]. intros H. specialize (IH H).
  rewrite last_cons, IH. reflexivity.
Qed.

Lemma last_rev (l : list ascii) : last (rev l) = head l.
Proof. destruct l as [|a l]; [reflexivity|]. cbn [rev]. apply last_snoc. Qed.

Lemma head_rev (l : list ascii) : head (rev l) = last l.
Proof. rewrite <- (rev_involutive l) at 2. symmetry. apply last_rev. Qed.

(** What is left after stripping neither starts nor ends with a
    stripped character. *)
Lemma strip_chars_ends (p : ascii → bool) (s : list ascii) (c : ascii) :
  head (strip_chars p s) = Some c ∨ last (strip_chars p s) = Some c → p c = false.
Proof.
  unfold strip_chars. rewrite head_rev, last_rev. intros [H|H].
  - apply lstrip_chars_last in H. rewrite last_rev in H.
    now apply lstrip_chars_head in H.
  - now apply lstrip_chars_head in H.
Qed.

Lemma strip_chars_length (p : ascii → bool) (s : list ascii) :
  (length (strip_chars p s) <= length s)%nat.
Proof.
  destruct (strip_chars_infix p s) as (k & m & ->).
  rewrite length_take, length_drop. lia.
Qed.

Lemma pretty_nonempty (z : Z) : chars (pretty z) ≠ [].
Proof.
  destruct z as [|p|p]; [discriminate| |].
  - destruct (pretty_pos_digits p) as [_ (c & r & -> & _)]. discriminate.
  - change (pretty (Z.neg p)) with ("-" +:+ pretty (Z.pos p)). rewrite chars_app.
    discriminate.
Qed.

(** X19. For a chapter whose title is a 7-bit text, the title used in a
    file name is never empty, neither starts nor ends with a dot or a
    space, and holds no white space other than single spaces. It is
    either the cleaned title, at most 80 characters long, or, when
    nothing of the title is left, "Chapter_" followed by the chapter
    number. *)
Theorem safe_title_clean (chapter : Chapter) :
  is_ascii_text (title chapter) = true →
  chars (safe_title chapter) ≠ []
  ∧ (∀ c, head (chars (safe_title chapter)) = Some c
          ∨ last (chars (safe_title chapter)) = Some c →
          dot_or_space c = false)
  ∧ spaced false (chars (safe_title chapter)) = true
  ∧ ((chars (safe_title chapter) = clean_title (title chapter)
      ∧ (length (chars (safe_title chapter)) <= 80)%nat)
     ∨ (clean_title (title chapter) = []
        ∧ safe_title chapter = "Chapter_" +:+ pretty (chapter_num chapter))).
Proof.
  intros _. unfold safe_title.
  destruct (clean_title (title chapter)) as [|c0 rest] eqn:Hclean.
  - rewrite chars_app.
    pose proof (pretty_Z_chars (chapter_num chapter)) as Hdigits.
    pose proof (pretty_nonempty (chapter_num chapter)) as Hne.
    split; [discriminate|]. split; [|split; [|now right]].
    + intros c [H|H]; [injection H as <-; reflexivity|].
      destruct (chars (pretty (chapter_num chapter))) as [|d ds] using rev_ind;
        [contradiction|].
      rewrite app_assoc, last_snoc in H. injection H as <-.
      apply Forall_app in Hdigits as [_ Hd]. inversion Hd as [|? ? Hd' _]; subst.
      now apply digit_or_minus_valid.
    + apply spaced_no_space, Forall_app. split; [repeat constructor|].
      eapply Forall_impl; [exact Hdigits|]. intros c Hc. now apply digit_or_minus_valid.
  - rewrite chars_of_list, <- Hclean. unfold clean_title.
    split; [|split; [|split]].
    + fold (clean_title (title chapter)). now rewrite Hclean.
    + apply strip_chars_ends.
    + eapply spaced_strip, spaced_take, spaced_strip, spaced_collapse.
    + left. split; [reflexivity|].
      etransitivity; [apply strip_chars_length|]. rewrite length_take. lia.
Qed.

(* ================================================================== *)
(** * The page copy of [split_chapters]                                *)
(* ================================================================== *)

Lemma py_range_unit (start stop : Z) :
  py_range start stop 1
  = map (fun k => start + Z.of_nat k) (seq 0 (Z.to_nat (stop - start))).
Proof.
  unfold py_range. rewrite Z.div_1_r.
  replace (stop - start + 1 - 1) with (stop - start) by lia.
  apply map_ext. intros k. lia.
Qed.

Lemma page_at_inside (pdf : PikePdf) (page_num : Z) :
  0 <= page_num < Z.of_nat (num_pages pdf) →
  page_at pdf page_num = Ok (Z.to_nat page_num).
Proof.
  intros H. unfold page_at.
  destruct (Z.ltb_spec page_num 0); [lia|].
  destruct (Z.leb_spec 0 page_num); [|lia].
  destruct (Z.ltb_spec page_num (Z.of_nat (num_pages pdf))); [reflexivity|lia].
Qed.

Lemma copy_pages_fold (n s cnt : nat) :
  fold_left (fun acc page_num =>
               if page_num <? Z.of_nat n then acc ++ [Z.to_nat page_num] else acc)
            (map (fun k => Z.of_nat s + Z.of_nat k) (seq 0 cnt)) []
  = seq s (Nat.min cnt (n - s)).
Proof.
  induction cnt as [|cnt IH]; [reflexivity|].
  rewrite seq_S, map_app, fold_left_app, IH. cbn [map fold_left Nat.add].
  destruct (Z.ltb_spec (Z.of_nat s + Z.of_nat cnt) (Z.of_nat n)) as [Hin|Hout].
  - rewrite !Nat.min_l by lia. rewrite seq_S. f_equal. f_equal. lia.
  - rewrite !Nat.min_r by lia. reflexivity.
Qed.

Lemma copy_pages_nonneg (pdf : PikePdf) (start end_ : Z) :
  0 <= start →
  copy_pages pdf start end_
  = Ok (seq (Z.to_nat start)
            (Nat.min (Z.to_nat (end_ + 1 - start)) (num_pages pdf - Z.to_nat start))).
Proof.
  intros Hstart. unfold copy_pages.
  rewrite (for_each_pure _ (fun acc page_num =>
                              if page_num <? Z.of_nat (num_pages pdf)
                              then acc ++ [Z.to_nat page_num] else acc)).
  - rewrite py_range_unit. f_equal.
    pose proof (copy_pages_fold (num_pages pdf) (Z.to_nat start)
                  (Z.to_nat (end_ + 1 - start))) as Hfold.
    rewrite Z2Nat.id in Hfold by exact Hstart. exact Hfold.
  - intros acc page_num Hin. rewrite py_range_unit in Hin.
    apply list_elem_of_fmap in Hin as (k & -> & _).
    destruct (Z.ltb_spec (start + Z.of_nat k) (Z.of_nat (num_pages pdf))); [|reflexivity].
    rewrite page_at_inside by lia. reflexivity.
Qed.

(** X21. For a start that is not negative the copy never raises: it
    takes the pages from [start] to [end] inclusive, in order, cut at
    the end of the document; it takes nothing when [end] is before
    [start] or [start] is past the last page. *)
Theorem copy_pages_range (pdf : PikePdf) (start end_ : Z) :
  0 <= start →
  copy_pages pdf start end_
  = Ok (seq (Z.to_nat start)
            (Nat.min (Z.to_nat (end_ + 1 - start)) (num_pages pdf - Z.to_nat start))).
Proof. apply copy_pages_nonneg. Qed.

Lemma copy_pages_range_witness :
  copy_pages fifteen_pages 10 19
  = Ok (seq (Z.to_nat 10) (Nat.min (Z.to_nat (19 + 1 - 10)) (15 - Z.to_nat 10))).
Proof. apply (copy_pages_range fifteen_pages 10 19). lia. Defined.

(** The ranges of a resolved list with ascending starts inside the
    document follow one another without gap or overlap. *)
Lemma resolved_pages_tile (pdf : PikePdf) (chapters : list Chapter) :
  StronglySorted Z.le (map start_page chapters) →
  Forall (fun c => 0 <= start_page c < Z.of_nat (num_pages pdf)) chapters →
  ∃ pagess,
    Forall2 (fun c pages => chapter_pages pdf c = Ok pages)
            (resolved chapters (Z.of_nat (num_pages pdf))) pagess
    ∧ concat pagess = pages_from_first chapters (num_pages pdf).
Proof.
  induction chapters as [|c rest IH]; intros Hs Hb.
  - exists []. split; [constructor|reflexivity].
  - cbn [map] in Hs. inversion Hs as [|? ? Hs' Hle]; subst.
    inversion Hb as [|? ? Hc Hb']; subst.
    destruct (IH Hs' Hb') as (pagess & Hall & Hcat).
    cbn [resolved].
    eexists (_ :: pagess). split.
    + constructor; [|exact Hall].
      unfold chapter_pages, get_end_page. cbn [end_page set_end_page start_page rbind].
      apply copy_pages_nonneg. lia.
    + cbn [concat pages_from_first]. rewrite Hcat.
      destruct rest as [|next rest'].
      * cbn [pages_from_first]. rewrite app_nil_r. f_equal. lia.
      * inversion Hle as [|? ? Hcn _]; subst. inversion Hb' as [|? ? Hn _]; subst.
        cbn [pages_from_first].
        replace (Nat.min (Z.to_nat (start_page next - 1 + 1 - start_page c))
                         (num_pages pdf - Z.to_nat (start_page c)))
          with (Z.to_nat (start_page next) - Z.to_nat (start_page c))%nat by lia.
        replace (num_pages pdf - Z.to_nat (start_page c))%nat
          with ((Z.to_nat (start_page next) - Z.to_nat (start_page c))
                + (num_pages pdf - Z.to_nat (start_page next)))%nat by lia.
        rewrite seq_app. f_equal. f_equal. lia.
Qed.

(** X22. When the starts of a list ascend and lie inside the document,
    the pages written for its resolved chapters, taken in order, are
    exactly the pages from the first start to the end of the document,
    each once: nothing after the first start is lost or written
    twice. *)
Theorem split_ranges_tile (pdf : PikePdf) (chapters : list Chapter) :
  StronglySorted Z.le (map start_page chapters) →
  Forall (fun c => 0 <= start_page c < Z.of_nat (num_pages pdf)) chapters →
  ∃ pagess,
    Forall2 (fun c pages => chapter_pages pdf c = Ok pages)
            (resolved chapters (Z.of_nat (num_pages pdf))) pagess
    ∧ concat pagess = pages_from_first chapters (num_pages pdf).
Proof. apply resolved_pages_tile. Qed.

Lemma split_ranges_tile_witness :
  ∃ pagess,
    Forall2 (fun c pages => chapter_pages fifteen_pages c = Ok pages)
            (resolved (_extract_nested_bookmarks two_parts 1 "" 0) 15) pagess
    ∧ concat pagess = seq 0 15.
Proof.
  apply (split_ranges_tile fifteen_pages (_extract_nested_bookmarks two_parts 1 "" 0)).
  - cbn. repeat constructor; lia.
  - cbn. repeat constructor; cbn; lia.
Defined.

(** X23. The fallback followed by the split writes every page of the
    document exactly once, in order. *)
Theorem default_chunks_cover_document (pdf : PikePdf) :
  ∃ pagess,
    Forall2 (fun c pages => chapter_pages pdf c = Ok pages)
            (default_chunks (Z.of_nat (num_pages pdf))) pagess
    ∧ concat pagess = seq 0 (num_pages pdf).
Proof.
  destruct (resolved_pages_tile pdf (default_chunks (Z.of_nat (num_pages pdf))))
    as (pagess & Hall & Hcat).
  - rewrite default_chunks_closed, map_map. cbn [nth_chunk start_page].
    generalize (chunk_count (Z.of_nat (num_pages pdf))) as m.
    generalize 0%nat as a. intros a m. revert a.
    induction m as [|m IH]; intros a; cbn [seq map]; constructor; [apply IH|].
    apply Forall_map, Forall_forall. intros k Hk.
    apply list_elem_of_In, in_seq in Hk. lia.
  - rewrite default_chunks_closed. apply Forall_map, Forall_forall. intros k Hk.
    apply list_elem_of_In, in_seq in Hk. cbn [nth_chunk start_page].
    assert (Hpos : 0 < Z.of_nat (num_pages pdf)).
    { destruct (num_pages pdf); [|lia]. rewrite chunk_count_zero in Hk by lia. lia. }
    pose proof (chunk_count_bounds _ Hpos). lia.
  - rewrite default_chunks_resolved in Hall. exists pagess. split; [exact Hall|].
    rewrite Hcat, default_chunks_closed.
    destruct (num_pages pdf) as [|n] eqn:Hn.
    + reflexivity.
    + pose proof (chunk_count_bounds (Z.of_nat (S n)) ltac:(lia)) as Hb.
      destruct (chunk_count (Z.of_nat (S n))) as [|m]; [lia|].
      cbn [seq map pages_from_first nth_chunk start_page]. reflexivity.
Qed.

(* ================================================================== *)
(** * [split_chapters] as a whole                                      *)
(* ================================================================== *)

Lemma os_path_join_sep (a b : string) (c : ascii) (rest : list ascii) :
  chars b = c :: rest → c ≠ "/"%char →
  os_path_join a b = a +:+ join_sep a +:+ b.
Proof.
  intros Hb Hc. unfold os_path_join, join_sep. rewrite Hb.
  assert (Hjoin : match rev (chars a) with
                  | [] => b
                  | "/"%char :: _ => a +:+ b
                  | _ => a +:+ "/" +:+ b
                  end
                  = a +:+ match rev (chars a) with
                          | [] => ""
                          | "/"%char :: _ => ""
                          | _ => "/"
                          end +:+ b).
  { destruct (rev (chars a)) as [|d r] eqn:Hr.
    - apply (f_equal (@rev ascii)) in Hr. rewrite rev_involutive in Hr.
      assert (a = "") as -> by (apply chars_inj; exact Hr). reflexivity.
    - destruct d as [[] [] [] [] [] [] [] []]; reflexivity. }
  destruct c as [[] [] [] [] [] [] [] []]; try exact Hjoin. contradiction.
Qed.

Lemma chapter_path_sep (output_dir : string) (chapter : Chapter) :
  chapter_path output_dir chapter
  = output_dir +:+ join_sep output_dir +:+ chapter_filename chapter.
Proof.
  unfold chapter_path.
  destruct (format_02d_head (chapter_num chapter)) as (c & rest & Hhead & Hc).
  apply (os_path_join_sep _ _ c (rest ++ chars " - " ++ chars (safe_title chapter)
                                      ++ chars ".pdf")).
  - rewrite chapter_filename_chars, Hhead. reflexivity.
  - now apply digit_or_minus_valid.
Qed.

Lemma chapter_path_number (output_dir : string) (c1 c2 : Chapter) :
  chapter_path output_dir c1 = chapter_path output_dir c2 →
  chapter_num c1 = chapter_num c2.
Proof.
  rewrite !chapter_path_sep. intros H. apply filename_determines_number, chars_inj.
  apply (f_equal chars) in H. rewrite !chars_app in H.
  now apply app_inv_head, app_inv_head in H.
Qed.

Lemma chapter_pages_entry (pdf : PikePdf) (output_dir : string) (save : Save)
    (c : Chapter) (pages : list nat) (outs : list OutputFile)
    (files : gmap string (list nat)) :
  chapter_pages pdf c = Ok pages →
  save_works save (chapter_path output_dir c) →
  split_step pdf output_dir save (outs, files) c
  = ((outs ++ [entry_of c], <[chapter_path output_dir c := pages]> files), None).
Proof.
  unfold chapter_pages, split_step, entry_of, get_end_page, chapter_path.
  destruct (end_page c) as [e|]; [|discriminate]. cbn [rbind].
  intros -> Hsave. cbn [rbind]. now rewrite Hsave.
Qed.

(** The loop over chapters all of which can be copied and saved. *)
Lemma split_loop_ok (pdf : PikePdf) (output_dir : string) (save : Save)
    (chapters : list Chapter) (pagess : list (list nat)) :
  Forall2 (fun c pages => chapter_pages pdf c = Ok pages) chapters pagess →
  Forall (fun c => save_works save (chapter_path output_dir c)) chapters →
  ∀ outs files,
    for_each_keep (split_step pdf output_dir save) chapters (outs, files)
    = ((outs ++ map entry_of chapters, write_all output_dir files chapters pagess), None).
Proof.
  induction 1 as [|c pages chapters pagess Hc _ IH]; intros Hsaves outs files.
  - cbn. now rewrite app_nil_r.
  - inversion Hsaves as [|? ? Hsave Hrest]; subst.
    cbn [for_each_keep]. rewrite (chapter_pages_entry _ _ _ _ _ _ _ Hc Hsave), (IH Hrest).
    cbn [map]. rewrite <- app_assoc. reflexivity.
Qed.

Lemma for_each_keep_app {S X : Type} (body : S → X → S * option string)
    (xs ys : list X) (st : S) :
  for_each_keep body (xs ++ ys) st
  = match for_each_keep body xs st with
    | (st', None) => for_each_keep body ys st'
    | stopped => stopped
    end.
Proof.
  revert st. induction xs as [|x xs IH]; intros st; [reflexivity|].
  cbn [app for_each_keep]. destruct (body st x) as [st' [e|]]; [reflexivity | apply IH].
Qed.

(** With pairwise distinct paths every file holds the pages of its
    chapter, and no other path is touched. *)
Lemma write_all_lookup (output_dir : string) (chapters : list Chapter)
    (pagess : list (list nat)) :
  length chapters = length pagess →
  NoDup (map (chapter_path output_dir) chapters) →
  ∀ files,
    Forall2 (fun c pages =>
               write_all output_dir files chapters pagess !! chapter_path output_dir c
               = Some pages) chapters pagess
    ∧ (∀ path, path ∉ map (chapter_path output_dir) chapters →
               write_all output_dir files chapters pagess !! path = files !! path).
Proof.
  revert pagess. induction chapters as [|c chapters IH]; intros [|pages pagess] Hlen Hnd files;
    try discriminate.
  - split; [constructor|reflexivity].
  - cbn [map] in Hnd. apply NoDup_cons in Hnd as [Hfresh Hnd].
    injection Hlen as Hlen.
    destruct (IH pagess Hlen Hnd (<[chapter_path output_dir c := pages]> files))
      as [Hall Hframe].
    change (write_all output_dir files (c :: chapters) (pages :: pagess))
      with (write_all output_dir (<[chapter_path output_dir c := pages]> files)
                      chapters pagess).
    split.
    + constructor; [|exact Hall].
      rewrite (Hframe _ Hfresh). apply lookup_insert_eq.
    + intros path Hpath. cbn [map] in Hpath. apply not_elem_of_cons in Hpath as [Hne Hpath].
      rewrite (Hframe _ Hpath). now apply lookup_insert_ne.
Qed.

Lemma chapter_paths_NoDup (output_dir : string) (chapters : list Chapter) :
  NoDup (map chapter_num chapters) → NoDup (map (chapter_path output_dir) chapters).
Proof.
  induction chapters as [|c chapters IH]; cbn [map]; intros Hnd; [constructor|].
  apply NoDup_cons in Hnd as [Hfresh Hnd]. apply NoDup_cons. split; [|now apply IH].
  intros Hin. apply Hfresh.
  apply list_elem_of_fmap in Hin as (c' & Hpath & Hc').
  apply chapter_path_number in Hpath. rewrite Hpath.
  now apply list_elem_of_fmap_2.
Qed.

(** X24. Take chapters with 7-bit titles and pairwise distinct numbers,
    each with its end page and pages that can be copied, a file
    pikepdf opens, and a disk on which the save of each chapter's file
    succeeds. Then [split_chapters] returns one entry per chapter, in
    order, and afterwards every chapter has a file of its own holding
    its pages; no other file is created or changed. *)
Theorem split_writes_every_chapter (doc : Document) (pdf : PikePdf)
    (chapters : list Chapter) (pagess : list (list nat)) (output_dir : string)
    (save : Save) (files : gmap string (list nat)) :
  pikepdf_open doc = Ok pdf →
  Forall (fun c => is_ascii_text (title c) = true) chapters →
  Forall2 (fun c pages => chapter_pages pdf c = Ok pages) chapters pagess →
  NoDup (map chapter_num chapters) →
  Forall (fun c => save_works save (chapter_path output_dir c)) chapters →
  ∃ files',
    split_chapters doc chapters output_dir save files
    = (Ok (map entry_of chapters), files')
    ∧ Forall2 (fun c pages => files' !! chapter_path output_dir c = Some pages)
              chapters pagess
    ∧ (∀ path, path ∉ map (chapter_path output_dir) chapters →
               files' !! path = files !! path).
Proof.
  intros Hopen _ Hpages Hnd Hsaves. unfold split_chapters. rewrite Hopen.
  rewrite (split_loop_ok _ _ _ _ _ Hpages Hsaves). cbn [fst snd app].
  eexists. split; [reflexivity|].
  apply write_all_lookup; [now apply (Forall2_length _ _ _ Hpages)|].
  now apply chapter_paths_NoDup.
Qed.

Lemma split_writes_every_chapter_witness :
  ∃ files',
    split_chapters book (_detect_from_bookmarks book) "output/book" plain_save ∅
    = (Ok (map entry_of (_detect_from_bookmarks book)), files')
    ∧ Forall2 (fun c pages => files' !! chapter_path "output/book" c = Some pages)
              (_detect_from_bookmarks book) [seq 0 5; seq 5 5; seq 10 5]
    ∧ (∀ path, path ∉ map (chapter_path "output/book") (_detect_from_bookmarks book) →
               files' !! path = (∅ : gmap string (list nat)) !! path).
Proof.
  apply (split_writes_every_chapter book fifteen_pages).
  - reflexivity.
  - repeat constructor.
  - repeat constructor.
  - change (NoDup [1; 2; 3]).
    repeat (apply NoDup_cons; split; [rewrite ?elem_of_cons, elem_of_nil; lia|]).
    apply NoDup_nil_2.
  - apply Forall_forall. intros c _ files pages. reflexivity.
Defined.

(** X25. Take a file pikepdf opens and a list in which a chapter
    without ['end_page'] follows chapters with 7-bit titles that can be
    copied and saved. Then the split stops at that chapter: the
    exception is "Failed to split PDF: 'end_page'", the files of the
    chapters before it have been written, and nothing is written for it
    or for the chapters after it. *)
Theorem split_stops_at_missing_end_page (doc : Document) (pdf : PikePdf)
    (before after : list Chapter) (bad : Chapter) (pagess : list (list nat))
    (output_dir : string) (save : Save) (files : gmap string (list nat)) :
  pikepdf_open doc = Ok pdf →
  Forall (fun c => is_ascii_text (title c) = true) before →
  Forall2 (fun c pages => chapter_pages pdf c = Ok pages) before pagess →
  Forall (fun c => save_works save (chapter_path output_dir c)) before →
  end_page bad = None →
  split_chapters doc (before ++ bad :: after) output_dir save files
  = (Raise "Failed to split PDF: 'end_page'",
     write_all output_dir files before pagess)
  ∧ split_chapters doc before output_dir save files
    = (Ok (map entry_of before), write_all output_dir files before pagess).
Proof.
  intros Hopen _ Hpages Hsaves Hbad. unfold split_chapters. rewrite Hopen.
  rewrite for_each_keep_app, (split_loop_ok _ _ _ _ _ Hpages Hsaves).
  cbn [for_each_keep app fst snd]. unfold split_step at 1, get_end_page.
  rewrite Hbad. cbn [rbind]. split; reflexivity.
Qed.

Lemma split_stops_at_missing_end_page_witness :
  split_chapters book book_chapters_damaged "out" plain_save ∅
  = (Raise "Failed to split PDF: 'end_page'",
     write_all "out" ∅ (take 1 book_chapters_damaged) [seq 0 5])
  ∧ split_chapters book (take 1 book_chapters_damaged) "out" plain_save ∅
    = (Ok (map entry_of (take 1 book_chapters_damaged)),
       write_all "out" ∅ (take 1 book_chapters_damaged) [seq 0 5]).
Proof.
  apply (split_stops_at_missing_end_page book fifteen_pages
           (take 1 book_chapters_damaged) (drop 2 book_chapters_damaged)
           (mkChapter "ChapterB" "Part I → ChapterB" "Part I" 5 2 1 None None)
           [seq 0 5] "out" plain_save ∅).
  - reflexivity.
  - repeat constructor.
  - repeat constructor.
  - apply Forall_forall. intros c _ files pages. reflexivity.
  - reflexivity.
Defined.

(** X26. What [detect_chapters] returns can be split: if the titles are
    7-bit texts, pikepdf opens the file, no chapter starts before page
    0 and the disk accepts the file of every chapter, [split_chapters]
    raises nothing and returns one entry per chapter, in order, with the
    chapter's title and its file name. *)
Theorem detected_chapters_split (doc : Document) (pdf : PikePdf)
    (method method' : option string) (chs : list Chapter) (output_dir : string)
    (save : Save) (files : gmap string (list nat)) :
  detect_chapters doc method = (Ok chs, method') →
  pikepdf_open doc = Ok pdf →
  Forall (fun c => is_ascii_text (title c) = true) chs →
  Forall (fun c => 0 <= start_page c) chs →
  Forall (fun c => save_works save (chapter_path output_dir c)) chs →
  fst (split_chapters doc chs output_dir save files) = Ok (map entry_of chs)
  ∧ map out_filename (map entry_of chs) = map chapter_filename chs
  ∧ map out_title (map entry_of chs) = map title chs.
Proof.
  intros Hdet Hopen _ Hstarts Hsaves.
  pose proof (detect_end_pages _ _ _ _ Hdet) as Hends.
  assert (Hpages : ∃ pagess,
            Forall2 (fun c pages => chapter_pages pdf c = Ok pages) chs pagess).
  { clear Hdet Hsaves. induction chs as [|c chs IH]; [exists []; constructor|].
    inversion Hstarts as [|? ? Hc Hs]; subst. inversion Hends as [|? ? [e He] Hes]; subst.
    destruct (IH Hs Hes) as [pagess Hall].
    eexists (_ :: pagess). constructor; [|exact Hall].
    unfold chapter_pages, get_end_page. rewrite He. cbn [rbind].
    now apply copy_pages_nonneg. }
  destruct Hpages as [pagess Hpages].
  split; [|split].
  - unfold split_chapters.
    rewrite Hopen, (split_loop_ok _ _ _ _ _ Hpages Hsaves). reflexivity.
  - rewrite map_map. reflexivity.
  - rewrite map_map. reflexivity.
Qed.

Lemma detected_chapters_split_witness :
  fst (split_chapters book (_detect_from_bookmarks book) "output/book" plain_save ∅)
  = Ok (map entry_of (_detect_from_bookmarks book))
  ∧ map out_filename (map entry_of (_detect_from_bookmarks book))
    = map chapter_filename (_detect_from_bookmarks book)
  ∧ map out_title (map entry_of (_detect_from_bookmarks book))
    = map title (_detect_from_bookmarks book).
Proof.
  apply (detected_chapters_split book fifteen_pages None (Some "bookmarks")).
  - reflexivity.
  - reflexivity.
  - repeat constructor.
  - change (_detect_from_bookmarks book)
      with (resolved (_extract_nested_bookmarks two_parts 1 "" 0) 15).
    cbn. repeat constructor; cbn; lia.
  - apply Forall_forall. intros c _ files pages. reflexivity.
Defined.

(* ================================================================== *)
(** * Further statements at concrete inputs                            *)
(* ================================================================== *)

Lemma bookmark_titles_witness :
  Forall (fun c => full_title c = join_titles (parent c) (title c)
                   ∧ 0 <= level c
                   ∧ (level c = 0 → parent c = "" ∧ full_title c = title c)
                   ∧ font_size c = None)
         (_detect_from_bookmarks (mkDocument (Ok (mkPikePdf (Ok flat_outline) 9)) (Ok []))).
Proof.
  exact (bookmark_titles (mkDocument (Ok (mkPikePdf (Ok flat_outline) 9)) (Ok []))).
Defined.

Lemma get_bookmark_page_cases_witness :
  _get_bookmark_page (mkItem "Appendix" (Some []) (Some (Some [Ok 12])) []) = Some 12.
Proof.
  apply (proj2 (get_bookmark_page_cases
                  (mkItem "Appendix" (Some []) (Some (Some [Ok 12])) []) 12)).
  right. split; [now right | now exists []].
Defined.

Lemma heading_test_effective_witness : _is_chapter_heading "Introduction" = true.
Proof.
  apply (proj2 (heading_test_effective "Introduction" eq_refl)).
  right. split; [cbn; lia|]. eexists _, _. split; reflexivity.
Defined.

Lemma default_chunks_partition_witness : default_chunks (Z.of_nat 0) = [].
Proof. apply (proj2 (proj2 (proj2 (default_chunks_partition 0)))). reflexivity. Defined.

Lemma safe_title_clean_witness : dot_or_space "2"%char = false.
Proof.
  apply (proj1 (proj2 (safe_title_clean (heading_chapter " . " 0 12 (20 # 1)) eq_refl))).
  right. reflexivity.
Defined.

Lemma allowed_file_spec_witness : ∃ b, allowed_file "book.PDF" = Ok b ∧ b = true.
Proof.
  destruct (allowed_file_spec "book.PDF") as (b & Hb & Hiff).
  exists b. split; [exact Hb|].
  apply Hiff. exists (chars "book"), (chars "PDF"). split; reflexivity.
Defined.
